(** * alpha_entry: bracketed order placement on a derivatives venue

    A shallow embedding of [alpha_entry.py]: the retry wrapper, the
    position sizing, the bracket prices and the order-placement pipeline,
    together with the part of Python's [decimal] module the script computes
    with (default context: 28 significant digits, ROUND_HALF_EVEN,
    Emin = -999999, Emax = 999999, traps on InvalidOperation, DivisionByZero
    and Overflow).

    Scope of the numeric model: finite decimals.  The special values NaN
    and Infinity of the [decimal] module are not represented. *)

From Stdlib Require Import ZArith QArith Qpower Qabs Bool List Lia Lqa.
From Stdlib Require Import Ascii String DecimalString.
Import ListNotations.

Local Open Scope Z_scope.

(** ** Values, exceptions and results *)

Module Py.

#[local] Set Warnings "-register-all".

(** A decoded JSON document, as the venue's client returns it. *)
Inductive pyval :=
| PNone
| PBool (b : bool)
| PInt (n : Z)
| PFloat (m e : Z)                       (* m * 2^e *)
| PStr (s : string)
| PList (l : list pyval)
| PDict (d : list (string * pyval)).

(** Signals of the decimal context that the default context traps. *)
Inductive signal := InvalidOperation | DivisionByZero | Overflow.

(** The exception classes the script can meet.  A constructor stands for
    the class and its subclasses. *)
Inductive exn :=
| RequestException (msg : string)
| ValueError (msg : string)
| KeyError (key : string)
| IndexError
| TypeError
| AttributeError
| DecimalException (s : signal)
| Exception_ (msg : string)            (* a plain [Exception(msg)] *)
| Exception_fmt (msg : string) (v : pyval)
                                       (* [Exception(f"{msg}{v}")]: the message
                                          is [msg] followed by [str(v)] *)
| OtherException (cls msg : string)    (* any other subclass of Exception *)
| BaseOnly (cls : string).             (* KeyboardInterrupt, SystemExit, ... *)

(** [isinstance(e, Exception)] *)
Definition is_Exception (e : exn) : bool :=
  match e with BaseOnly _ => false | _ => true end.

Inductive result (A : Type) :=
| Ok (a : A)
| Err (e : exn).
Arguments Ok {A} a.
Arguments Err {A} e.

End Py.
Export Py.

(** ** The decimal module *)

Module Dec.

(** A finite decimal: [_sign], [_int] (as a number) and [_exp]. *)
Record Decimal := mkDec { dsign : bool; dint : N; dexp : Z }.

Definition dcoef (d : Decimal) : Z := Z.of_N (dint d).

(** Non-negative literal [c * 10^e]. *)
Definition dec (c : Z) (e : Z) : Decimal := mkDec false (Z.to_N c) e.

(** [Decimal(n)] for a Python int [n]. *)
Definition of_int (n : Z) : Decimal := mkDec (n <? 0) (Z.abs_N n) 0.

Definition negate (d : Decimal) : Decimal :=
  mkDec (negb (dsign d)) (dint d) (dexp d).

(** Default context. *)
Definition prec : Z := 28.
Definition Emax : Z := 999999.
Definition Emin : Z := -999999.
Definition Etiny : Z := Emin - prec + 1.
Definition Etop : Z := Emax - prec + 1.

(** A decimal computation returns a value together with the Inexact flag it
    raised in the context, or raises a trapped signal. *)
Definition D (A : Type) : Type := result (A * bool).

Definition dret {A} (a : A) : D A := Ok (a, false).

Definition dbind {A B} (m : D A) (k : A -> D B) : D B :=
  match m with
  | Err e => Err e
  | Ok (a, f) =>
      match k a with
      | Err e => Err e
      | Ok (b, g) => Ok (b, f || g)
      end
  end.

(** [len(str(c))] for a coefficient [c >= 0]. *)
Fixpoint ndigits_aux (fuel : nat) (c : Z) : Z :=
  match fuel with
  | O => 1
  | S f => if c <? 10 then 1 else 1 + ndigits_aux f (c / 10)
  end.

Definition ndigits (c : Z) : Z := ndigits_aux (Z.to_nat (Z.log2 c)) c.

(** [Decimal._fix]: round the triple [(s, c, e)] to the context. *)
Definition _fix (s : bool) (c e : Z) : D Decimal :=
  if c =? 0 then
    Ok (mkDec s 0 (Z.min (Z.max e Etiny) Emax), false)
  else
    let exp_min := ndigits c + e - prec in
    if Etop <? exp_min then Err (DecimalException Overflow)
    else
      let exp_min := Z.max exp_min Etiny in
      if e <? exp_min then
        let p := 10 ^ (exp_min - e) in
        let q := c / p in
        let r := c mod p in
        let up := (p <? 2 * r) || ((2 * r =? p) && Z.odd q) in
        let coeff := if up then q + 1 else q in
        let '(coeff, exp_min) :=
          if up && (prec <? ndigits coeff)
          then (coeff / 10, exp_min + 1) else (coeff, exp_min) in
        if Etop <? exp_min then Err (DecimalException Overflow)
        else Ok (mkDec s (Z.to_N coeff) exp_min, negb (r =? 0))
      else Ok (mkDec s (Z.to_N c) e, false).

(** [a * b] *)
Definition dmul (a b : Decimal) : D Decimal :=
  _fix (xorb (dsign a) (dsign b)) (dcoef a * dcoef b) (dexp a + dexp b).

(** The loop of [__truediv__] on an exact quotient: drop trailing zeros
    while the exponent is below the ideal one; [n] is the distance left. *)
Fixpoint strip_zeros (n : nat) (coeff exp : Z) : Z * Z :=
  match n with
  | O => (coeff, exp)
  | S n' =>
      if coeff mod 10 =? 0 then strip_zeros n' (coeff / 10) (exp + 1)
      else (coeff, exp)
  end.

(** [a / b] *)
Definition ddiv (a b : Decimal) : D Decimal :=
  let sign := xorb (dsign a) (dsign b) in
  if dcoef b =? 0 then
    if dcoef a =? 0 then Err (DecimalException InvalidOperation)
    else Err (DecimalException DivisionByZero)
  else if dcoef a =? 0 then _fix sign 0 (dexp a - dexp b)
  else
    let shift := ndigits (dcoef b) - ndigits (dcoef a) + prec + 1 in
    let exp := dexp a - dexp b - shift in
    let num := if 0 <=? shift then dcoef a * 10 ^ shift else dcoef a in
    let den := if 0 <=? shift then dcoef b else dcoef b * 10 ^ (- shift) in
    let coeff := num / den in
    let remainder := num mod den in
    if remainder =? 0 then
      let '(coeff, exp) :=
        strip_zeros (Z.to_nat (dexp a - dexp b - exp)) coeff exp in
      _fix sign coeff exp
    else
      _fix sign (if coeff mod 5 =? 0 then coeff + 1 else coeff) exp.

(** [a // b]: the integer part of the quotient, truncated toward zero,
    with exponent 0; the quotient must fit the precision. *)
Definition dfloordiv (a b : Decimal) : D Decimal :=
  let sign := xorb (dsign a) (dsign b) in
  if dcoef b =? 0 then
    if dcoef a =? 0 then Err (DecimalException InvalidOperation)
    else Err (DecimalException DivisionByZero)
  else
    let e := Z.min (dexp a) (dexp b) in
    let q := (dcoef a * 10 ^ (dexp a - e)) / (dcoef b * 10 ^ (dexp b - e)) in
    if q <? 10 ^ prec then Ok (mkDec sign (Z.to_N q) 0, false)
    else Err (DecimalException InvalidOperation).

(** The coefficient with its sign. *)
Definition signed (d : Decimal) : Z :=
  if dsign d then - dcoef d else dcoef d.

(** [a + b] *)
Definition dadd (a b : Decimal) : D Decimal :=
  let e := Z.min (dexp a) (dexp b) in
  let s := signed a * 10 ^ (dexp a - e) + signed b * 10 ^ (dexp b - e) in
  let sign := if s =? 0 then dsign a && dsign b else s <? 0 in
  _fix sign (Z.abs s) e.

(** [a - b] *)
Definition dsub (a b : Decimal) : D Decimal := dadd a (negate b).

(** *** [str(d)] *)

Definition digits (n : Z) : string :=
  NilZero.string_of_uint (N.to_uint (Z.to_N n)).

Fixpoint zeros (n : nat) : string :=
  match n with O => EmptyString | S n' => String "0" (zeros n') end.

Definition slen (s : string) : Z := Z.of_nat (String.length s).

(** ["%+d" % n] *)
Definition signed_digits (n : Z) : string :=
  let sg := if n <? 0 then "-"%string else "+"%string in
  (sg ++ digits (Z.abs n))%string.

Definition str (d : Decimal) : string :=
  let sign := if dsign d then "-"%string else ""%string in
  let int_ := digits (dcoef d) in
  let leftdigits := dexp d + slen int_ in
  let dotplace :=
    if (dexp d <=? 0) && (-6 <? leftdigits) then leftdigits else 1 in
  let intpart :=
    if dotplace <=? 0 then "0"%string
    else if slen int_ <=? dotplace
         then (int_ ++ zeros (Z.to_nat (dotplace - slen int_)))%string
         else substring 0 (Z.to_nat dotplace) int_ in
  let fracpart :=
    if dotplace <=? 0
    then ("." ++ zeros (Z.to_nat (- dotplace)) ++ int_)%string
    else if slen int_ <=? dotplace then ""%string
         else ("." ++ substring (Z.to_nat dotplace)
                        (String.length int_ - Z.to_nat dotplace) int_)%string in
  let exp :=
    if leftdigits =? dotplace then ""%string
    else ("E" ++ signed_digits (leftdigits - dotplace))%string in
  (sign ++ intpart ++ fracpart ++ exp)%string.

(** *** The value of a decimal *)

Definition dval (d : Decimal) : Q := inject_Z (signed d) * (10 ^ dexp d)%Q.

(** The magnitude [|d|]. *)
Definition mag (d : Decimal) : Q := inject_Z (dcoef d) * (10 ^ dexp d)%Q.

(** [r] is an integer multiple of [g]. *)
Definition multiple_of (r g : Decimal) : Prop :=
  exists k : Z, dval r == inject_Z k * dval g.

(** [Decimal(s)] on the plain numerals: an optional sign, digits and at
    most one point, at least one digit.  The rest of the constructor's
    grammar (exponents, underscores, surrounding blanks, NaN and Infinity)
    is outside this fragment and is answered [None]. *)
Definition digit_of (c : ascii) : option Z :=
  let n := Z.of_nat (nat_of_ascii c) in
  if (48 <=? n) && (n <=? 57) then Some (n - 48) else None.

Fixpoint read_digits (s : string) (acc n : Z) : Z * Z * string :=
  match s with
  | EmptyString => (acc, n, s)
  | String c r =>
      match digit_of c with
      | Some d => read_digits r (10 * acc + d) (n + 1)
      | None => (acc, n, s)
      end
  end.

Definition parse_plain (s : string) : option Decimal :=
  let '(sign, body) :=
    match s with
    | String "-" r => (true, r)
    | String "+" r => (false, r)
    | _ => (false, s)
    end in
  let '(i, ni, rest) := read_digits body 0 0 in
  match rest with
  | EmptyString => if 0 <? ni then Some (mkDec sign (Z.to_N i) 0) else None
  | String "." r =>
      let '(c, nf, rest') := read_digits r i 0 in
      match rest' with
      | EmptyString =>
          if 0 <? ni + nf then Some (mkDec sign (Z.to_N c) (- nf)) else None
      | _ => None
      end
  | _ => None
  end.

End Dec.
Export Dec.

(** ** Operations on Python values *)

Module PyVal.

Fixpoint lookup (k : string) (d : list (string * pyval)) : option pyval :=
  match d with
  | [] => None
  | (k', v) :: d' => if String.eqb k k' then Some v else lookup k d'
  end.

(** [v[k]] for a string key [k]. *)
Definition getitem (v : pyval) (k : string) : result pyval :=
  match v with
  | PDict d => match lookup k d with Some x => Ok x | None => Err (KeyError k) end
  | _ => Err TypeError
  end.

(** [v[0]] *)
Definition getitem0 (v : pyval) : result pyval :=
  match v with
  | PList (x :: _) => Ok x
  | PList [] => Err IndexError
  | PStr (String c _) => Ok (PStr (String c EmptyString))
  | PStr EmptyString => Err IndexError
  | PDict _ => Err (KeyError "0")
  | _ => Err TypeError
  end.

Fixpoint is_substring (p s : string) : bool :=
  prefix p s ||
  match s with
  | EmptyString => false
  | String _ s' => is_substring p s'
  end.

Definition eq_str (v : pyval) (s : string) : bool :=
  match v with PStr t => String.eqb t s | _ => false end.

(** [k in v] for a string [k]. *)
Definition contains (k : string) (v : pyval) : result bool :=
  match v with
  | PDict d => Ok (match lookup k d with Some _ => true | None => false end)
  | PList l => Ok (existsb (fun x => eq_str x k) l)
  | PStr s => Ok (is_substring k s)
  | _ => Err TypeError
  end.

(** [v.get(k, default)] *)
Definition get (v : pyval) (k : string) (default : pyval) : result pyval :=
  match v with
  | PDict d => Ok (match lookup k d with Some x => x | None => default end)
  | _ => Err AttributeError
  end.

(** [bool(v)] *)
Definition truthy (v : pyval) : bool :=
  match v with
  | PNone => false
  | PBool b => b
  | PInt n => negb (n =? 0)
  | PFloat m _ => negb (m =? 0)
  | PStr s => negb (String.eqb s "")
  | PList l => match l with [] => false | _ => true end
  | PDict d => match d with [] => false | _ => true end
  end.

Fixpoint chars (s : string) : list pyval :=
  match s with
  | EmptyString => []
  | String c s' => PStr (String c EmptyString) :: chars s'
  end.

(** [iter(v)] *)
Definition items (v : pyval) : result (list pyval) :=
  match v with
  | PList l => Ok l
  | PDict d => Ok (map (fun kv => PStr (fst kv)) d)
  | PStr s => Ok (chars s)
  | _ => Err TypeError
  end.

(** [str.lower] and [str.upper] on ASCII letters. *)
Definition lower_ascii (c : ascii) : ascii :=
  let n := nat_of_ascii c in
  if (65 <=? n)%nat && (n <=? 90)%nat then ascii_of_nat (n + 32) else c.

Definition upper_ascii (c : ascii) : ascii :=
  let n := nat_of_ascii c in
  if (97 <=? n)%nat && (n <=? 122)%nat then ascii_of_nat (n - 32) else c.

Fixpoint lower (s : string) : string :=
  match s with
  | EmptyString => EmptyString
  | String c s' => String (lower_ascii c) (lower s')
  end.

Fixpoint upper (s : string) : string :=
  match s with
  | EmptyString => EmptyString
  | String c s' => String (upper_ascii c) (upper s')
  end.

End PyVal.
Export PyVal.

(** ** The script *)

Module Alpha.

(** Keyword arguments of [create_order_v3]; the keywords a call leaves out
    are [None]. *)
Record order_kwargs := mkOrder {
  o_symbol : string;
  o_side : string;
  o_type : string;
  o_size : string;
  o_price : string;
  o_timeInForce : string;
  o_timestampSeconds : Z;
  o_isPositionTpsl : option bool;
  o_reduceOnly : option bool;
  o_triggerPriceType : option string;
  o_triggerPrice : option string
}.

(** Calls to the venue's clients. *)
Inductive call :=
| get_account_v3
| get_account_balance_v3
| configs_v3
| ticker_v3 (symbol : string)
| create_order_v3 (kw : order_kwargs).

(** What a run does that can be observed from outside. *)
Inductive event :=
| Called (c : call)
| Sleep (seconds : Q)
| LogWarning (cause : exn) (attempt max_retries : nat)
| LogInfo (label : string) (v : pyval)
| LogArguments (symbol direction : string) (leverage tp_percent sl_percent : Decimal)
| LogError (e : exn)
| Print (s : string).

Definition is_order (ev : event) : bool :=
  match ev with Called (create_order_v3 _) => true | _ => false end.

Definition is_warning (ev : event) : bool :=
  match ev with LogWarning _ _ _ => true | _ => false end.

Definition is_call (ev : event) : bool :=
  match ev with Called _ => true | _ => false end.

Fixpoint sleeps (t : list event) : list Q :=
  match t with
  | [] => []
  | Sleep q :: t' => q :: sleeps t'
  | _ :: t' => sleeps t'
  end.

Fixpoint orders (t : list event) : list order_kwargs :=
  match t with
  | [] => []
  | Called (create_order_v3 kw) :: t' => kw :: orders t'
  | _ :: t' => orders t'
  end.

Section Script.

(** The world outside the process: venue, network and clock. *)
Context {W : Type}.

(** The clients of [clients.py] and the clock, as transitions of the
    world.  A client call returns a decoded response (possibly [None]) or
    raises. *)
Record env := mkEnv {
  client : call -> W -> result pyval * W;
  time_time : W -> Z * W                     (* [int(time.time())] *)
}.

(** [decimal.Decimal(x)] on a decoded value. *)
Variable Decimal_of : pyval -> result Decimal.

Record state := mkState { world : W; trace : list event }.

Definition M (A : Type) : Type := state -> result A * state.

Definition ret {A} (a : A) : M A := fun st => (Ok a, st).

Definition raise {A} (e : exn) : M A := fun st => (Err e, st).

Definition bind {A B} (m : M A) (k : A -> M B) : M B :=
  fun st =>
    match m st with
    | (Ok a, st') => k a st'
    | (Err e, st') => (Err e, st')
    end.

Definition emit (ev : event) : M unit :=
  fun st => (Ok tt, mkState (world st) (trace st ++ [ev])).

Definition liftR {A} (r : result A) : M A := fun st => (r, st).

(** A decimal computation inside the script: the context flags are never
    read. *)
Definition liftD {A} (d : D A) : M A :=
  fun st => match d with Ok (a, _) => (Ok a, st) | Err e => (Err e, st) end.

Definition pureD {A} (r : result A) : D A :=
  match r with Ok a => Ok (a, false) | Err e => Err e end.

End Script.

Arguments env : clear implicits.
Arguments state : clear implicits.
Arguments M : clear implicits.

Declare Scope py_scope.
Delimit Scope py_scope with py.
Notation "x <- m ;; k" := (bind m (fun x => k))
  (at level 61, m at next level, right associativity) : py_scope.
Notation "m ;;; k" := (bind m (fun _ => k))
  (at level 61, right associativity) : py_scope.

Declare Scope dec_scope.
Delimit Scope dec_scope with dec.
Notation "x <- m ;; k" := (dbind m (fun x => k))
  (at level 61, m at next level, right associativity) : dec_scope.

Section Functions.

Context {W : Type}.
Variable E : env W.
Variable Decimal_of : pyval -> result Decimal.

Local Open Scope py_scope.

(** A client call, recorded in the trace. *)
Definition invoke (c : call) : M W pyval :=
  fun st =>
    let '(r, w) := client E c (world st) in
    (r, mkState w (trace st ++ [Called c])).

Definition now : M W Z :=
  fun st => let '(t, w) := time_time E (world st) in (Ok t, mkState w (trace st)).

Definition max_retries : nat := 5.
Definition backoff_factor : Q := 1 # 2.

(** [except (requests.exceptions.RequestException, ValueError)] *)
Definition caught_by_retry (e : exn) : bool :=
  match e with
  | RequestException _ | ValueError _ => true
  | _ => false
  end.

(** [backoff_factor * (2 ** attempt)] *)
Definition backoff (attempt : nat) : Q :=
  Qred (backoff_factor * inject_Z (2 ^ Z.of_nat attempt)).

(** The body of the [try] of [api_call_with_retry]. *)
Definition attempt_call (api_func : M W pyval) : M W pyval :=
  response <- api_func ;;
  match response with
  | PNone => raise (ValueError "Empty response received")
  | _ => ret response
  end.

(** The [for attempt in range(max_retries)] loop, over the attempts left. *)
Fixpoint retry_loop (api_func : M W pyval) (attempts : list nat) : M W pyval :=
  match attempts with
  | [] =>
      raise (Exception_ ("Failed to execute API call after "
                         ++ digits (Z.of_nat max_retries) ++ " attempts"))
  | attempt :: rest =>
      fun st =>
        match attempt_call api_func st with
        | (Ok response, st') => (Ok response, st')
        | (Err e, st') =>
            if caught_by_retry e then
              (emit (LogWarning e (attempt + 1) max_retries) ;;;
               emit (Sleep (backoff attempt)) ;;;
               retry_loop api_func rest) st'
            else (Err e, st')
        end
  end.

Definition api_call_with_retry (api_func : M W pyval) : M W pyval :=
  retry_loop api_func (seq 0 max_retries).

Definition fetch_account_data : M W pyval :=
  account_balance_res <- api_call_with_retry (invoke get_account_balance_v3) ;;
  ret account_balance_res.

Definition fetch_current_price (symbol : string) : M W Decimal :=
  ticker <- api_call_with_retry (invoke (ticker_v3 symbol)) ;;
  data <- liftR (getitem ticker "data") ;;
  first <- liftR (getitem0 data) ;;
  lastPrice <- liftR (getitem first "lastPrice") ;;
  liftR (Decimal_of lastPrice).

(** [(x // g) * g] *)
Definition quantize (x g : Decimal) : D Decimal :=
  (q <- dfloordiv x g ;; dmul q g)%dec.

Definition calculate_position_size
    (account_data : pyval) (leverage current_price step_size : Decimal)
    : D Decimal :=
  (data <- pureD (getitem account_data "data") ;;
   balance <- pureD (getitem data "availableBalance") ;;
   available_margin <- pureD (Decimal_of balance) ;;
   real_leverage <- dmul leverage (of_int 100) ;;
   product <- dmul available_margin real_leverage ;;
   position_size <- ddiv product current_price ;;
   quantize position_size step_size)%dec.

(** [next((item for item in l if item['symbol'] == symbol), None)] *)
Fixpoint find_symbol (symbol : string) (l : list pyval) : result pyval :=
  match l with
  | [] => Ok PNone
  | item :: l' =>
      match getitem item "symbol" with
      | Err e => Err e
      | Ok s => if eq_str s symbol then Ok item else find_symbol symbol l'
      end
  end.

Definition fetch_tick_and_step_size (symbol : string) : M W (Decimal * Decimal) :=
  response <- api_call_with_retry (invoke configs_v3) ;;
  has_data <- liftR (contains "data" response) ;;
  if negb has_data then
    raise (Exception_fmt "Error fetching configs: " response)
  else
    data <- liftR (get response "data" (PDict [])) ;;
    contract_config <- liftR (get data "contractConfig" (PDict [])) ;;
    perpetual_contracts <-
      liftR (get contract_config "perpetualContract" (PList [])) ;;
    if negb (truthy perpetual_contracts) then
      raise (Exception_ "No perpetual contracts found under contractConfig.")
    else
      contracts <- liftR (items perpetual_contracts) ;;
      symbol_data <- liftR (find_symbol symbol contracts) ;;
      if negb (truthy symbol_data) then
        raise (Exception_ ("Symbol data not found for " ++ symbol))
      else
        tickSize <- liftR (getitem symbol_data "tickSize") ;;
        tick_size <- liftR (Decimal_of tickSize) ;;
        stepSize <- liftR (getitem symbol_data "stepSize") ;;
        step_size <- liftR (Decimal_of stepSize) ;;
        ret (tick_size, step_size).

(** Lines 78-88 of [place_optimal_limit_order]: the take-profit and
    stop-loss prices, quantized to the tick. *)
Definition bracket_prices
    (direction : string) (current_price tp_percent sl_percent tick_size : Decimal)
    : D (Decimal * Decimal) :=
  (raw <-
     (if String.eqb (lower direction) "buy" then
        tp_frac <- ddiv tp_percent (of_int 100) ;;
        tp_factor <- dadd (of_int 1) tp_frac ;;
        tp_price <- dmul current_price tp_factor ;;
        sl_frac <- ddiv sl_percent (of_int 100) ;;
        sl_factor <- dsub (of_int 1) sl_frac ;;
        sl_price <- dmul current_price sl_factor ;;
        dret (tp_price, sl_price)
      else if String.eqb (lower direction) "sell" then
        tp_frac <- ddiv tp_percent (of_int 100) ;;
        tp_factor <- dsub (of_int 1) tp_frac ;;
        tp_price <- dmul current_price tp_factor ;;
        sl_frac <- ddiv sl_percent (of_int 100) ;;
        sl_factor <- dadd (of_int 1) sl_frac ;;
        sl_price <- dmul current_price sl_factor ;;
        dret (tp_price, sl_price)
      else Err (ValueError "Direction must be either 'buy' or 'sell'")) ;;
   tp_price <- quantize (fst raw) tick_size ;;
   sl_price <- quantize (snd raw) tick_size ;;
   dret (tp_price, sl_price))%dec.

Definition opposite_side (direction : string) : string :=
  if String.eqb (lower direction) "buy" then "SELL"%string else "BUY"%string.

Definition entry_order (symbol direction : string)
    (position_size current_price : Decimal) (t : Z) : order_kwargs :=
  mkOrder symbol (upper direction) "MARKET" (str position_size)
          (str current_price) "GOOD_TIL_CANCEL" t None None None None.

Definition bracket_order (symbol direction type_ : string)
    (position_size trigger : Decimal) (t : Z) : order_kwargs :=
  mkOrder symbol (opposite_side direction) type_ (str position_size)
          (str trigger) "GOOD_TIL_CANCEL" t (Some true) (Some true)
          (Some "INDEX"%string) (Some (str trigger)).

(** Lines 72-76: the reads and the position size. *)
Definition gather (symbol : string) (leverage : Decimal)
    : M W (Decimal * Decimal * Decimal) :=
  accountData <- invoke get_account_v3 ;;
  account_data <- fetch_account_data ;;
  sizes <- fetch_tick_and_step_size symbol ;;
  current_price <- fetch_current_price symbol ;;
  position_size <-
    liftD (calculate_position_size account_data leverage current_price (snd sizes)) ;;
  ret (fst sizes, current_price, position_size).

(** Lines 90-129: the three submissions. *)
Definition submit (symbol direction : string)
    (position_size current_price sl_price tp_price : Decimal) : M W unit :=
  t0 <- now ;;
  initial_order <-
    api_call_with_retry
      (invoke (create_order_v3
                 (entry_order symbol direction position_size current_price t0))) ;;
  emit (LogInfo "Initial Order" initial_order) ;;;
  t1 <- now ;;
  stop_order <-
    api_call_with_retry
      (invoke (create_order_v3
                 (bracket_order symbol direction "STOP_MARKET"
                                position_size sl_price t1))) ;;
  emit (LogInfo "Stop Loss Order" stop_order) ;;;
  t2 <- now ;;
  tp_order <-
    api_call_with_retry
      (invoke (create_order_v3
                 (bracket_order symbol direction "TAKE_PROFIT_MARKET"
                                position_size tp_price t2))) ;;
  emit (LogInfo "Take Profit Order" tp_order).

Definition place_optimal_limit_order
    (symbol direction : string) (leverage tp_percent sl_percent : Decimal)
    : M W unit :=
  inputs <- gather symbol leverage ;;
  let '(tick_size, current_price, position_size) := inputs in
  prices <-
    liftD (bracket_prices direction current_price tp_percent sl_percent tick_size) ;;
  submit symbol direction position_size current_price (snd prices) (fst prices).

(** How the process ends. *)
Inductive outcome :=
| SysExit (status : Z)        (* [sys.exit(status)] *)
| Finished                     (* the end of the script is reached *)
| Uncaught (e : exn).          (* traceback *)

(** The exit status of the process.  An uncaught [Exception] ends it with
    a traceback and status 1.  For the other exceptions the status is not
    told by what is kept of them here ([SystemExit] carries its own,
    [KeyboardInterrupt] ends the process by its signal): [None]. *)
Definition exit_status (o : outcome) : option Z :=
  match o with
  | SysExit n => Some n
  | Finished => Some 0
  | Uncaught e => if is_Exception e then Some 1 else None
  end.

Definition usage : string :=
  "Usage: python buy_btc.py <symbol> <direction> <leverage> <tp_percent> <sl_percent>".

(** The [__main__] block, on [sys.argv]. *)
Definition main (argv : list string) : state W -> outcome * state W :=
  fun st =>
    match argv with
    | [_; symbol; direction; a3; a4; a5] =>
        match Decimal_of (PStr a3) with
        | Err e => (Uncaught e, st)
        | Ok leverage =>
        match Decimal_of (PStr a4) with
        | Err e => (Uncaught e, st)
        | Ok tp_percent =>
        match Decimal_of (PStr a5) with
        | Err e => (Uncaught e, st)
        | Ok sl_percent =>
            let st1 := mkState (world st)
                         (trace st ++ [LogArguments symbol direction
                                         leverage tp_percent sl_percent]) in
            match place_optimal_limit_order symbol direction
                    leverage tp_percent sl_percent st1 with
            | (Ok _, st2) => (Finished, st2)
            | (Err e, st2) =>
                if is_Exception e
                then (Finished, mkState (world st2) (trace st2 ++ [LogError e]))
                else (Uncaught e, st2)
            end
        end end end
    | _ => (SysExit 1, mkState (world st) (trace st ++ [Print usage]))
    end.

End Functions.

End Alpha.
Export Alpha.

(** ** Vocabulary of the statements *)

Module Spec.


(** Operands for which neither [//] nor [*] has to round: [x] written at
    the finer of the two exponents fits the precision, and the exponent of
    [g] is one the context can hold. *)
Definition fits (x g : Decimal) : Prop :=
  dcoef x * 10 ^ (dexp x - Z.min (dexp x) (dexp g)) < 10 ^ prec /\
  Etiny <= dexp g <= Etop.

(** [r] is [x] cut to a multiple of [g] toward zero: the floor multiple
    for [x >= 0], the ceiling multiple for [x <= 0]. *)
Definition truncated (r x g : Decimal) : Prop :=
  multiple_of r g /\
  ((0 <= dval x)%Q ->
     (0 <= dval r)%Q /\ (dval r <= dval x)%Q /\ (dval x < dval r + dval g)%Q) /\
  ((dval x <= 0)%Q ->
     (dval r <= 0)%Q /\ (dval x <= dval r)%Q /\ (dval r - dval g < dval x)%Q).

(** What the [try] of the retry wrapper turns into another attempt: an
    exception of the two caught classes, or the response [None]. *)
Definition transient (r : result pyval) : bool :=
  match r with
  | Ok PNone => true
  | Ok _ => false
  | Err e => caught_by_retry e
  end.

(** The exception the [except] clause binds on a transient outcome. *)
Definition cause (r : result pyval) : exn :=
  match r with
  | Err e => e
  | Ok _ => ValueError "Empty response received"
  end.

Section Venue.

Context {W : Type}.
Variable E : env W.

(** The world after [k] consecutive transient outcomes of the call [c],
    if that is how the venue answers from [w]. *)
Fixpoint fails_transiently (c : call) (k : nat) (w : W) : option W :=
  match k with
  | O => Some w
  | S k' =>
      let '(r, w') := client E c w in
      if transient r then fails_transiently c k' w' else None
  end.

End Venue.

(** [st'] continues the trace of [st], and every order submitted in between
    satisfies [P]. *)
Definition extends {W} (P : order_kwargs -> Prop) (st st' : state W) : Prop :=
  exists tr, trace st' = trace st ++ tr /\ Forall P (orders tr).

(** A computation only extends the trace, with orders that satisfy [P]. *)
Definition orders_in {W A} (P : order_kwargs -> Prop) (m : M W A) : Prop :=
  forall st r st', m st = (r, st') -> extends P st st'.

(** No order at all. *)
Definition no_order : order_kwargs -> Prop := fun _ => False.

(** What one failed attempt adds to the trace. *)
Definition failed_attempt (c : call) (e : exn) (attempt : nat) : list event :=
  [Called c; LogWarning e (attempt + 1) max_retries; Sleep (backoff attempt)].

(** The orders of [submit]: the entry, the stop and the take-profit, with
    the time stamps of the clock. *)
Definition submitted (symbol direction : string)
    (size price sl tp : Decimal) (kw : order_kwargs) : Prop :=
  exists t : Z,
    kw = entry_order symbol direction size price t \/
    kw = bracket_order symbol direction "STOP_MARKET" size sl t \/
    kw = bracket_order symbol direction "TAKE_PROFIT_MARKET" size tp t.


(** The state after the arguments were logged. *)
Definition logged {W} (symbol direction : string)
    (leverage tp_percent sl_percent : Decimal) (st : state W) : state W :=
  mkState (world st)
          (trace st ++ [LogArguments symbol direction
                          leverage tp_percent sl_percent]).

(** Two computations that cannot be told apart. *)
Definition same {W A} (m1 m2 : M W A) : Prop := forall st, m1 st = m2 st.

(** Two venues that answer alike except for the value [get_account_v3]
    returns. *)
Definition alike {W} (E1 E2 : env W) : Prop :=
  (forall c w, c <> get_account_v3 -> client E1 c w = client E2 c w) /\
  (forall w, time_time E1 w = time_time E2 w) /\
  (forall w, exists v1 v2 w',
      client E1 get_account_v3 w = (Ok v1, w') /\
      client E2 get_account_v3 w = (Ok v2, w')).

(** The seconds a list of waits adds up to. *)
Fixpoint total (l : list Q) : Q :=
  match l with
  | [] => 0
  | q :: l' => q + total l'
  end.


(** What every order other than the entry carries, whatever its price. *)
Definition protective (direction : string) (kw : order_kwargs) : Prop :=
  o_type kw <> "MARKET"%string ->
  o_side kw = opposite_side direction /\
  o_reduceOnly kw = Some true /\ o_isPositionTpsl kw = Some true /\
  o_triggerPriceType kw = Some "INDEX"%string /\
  o_timeInForce kw = "GOOD_TIL_CANCEL"%string.

(** An entry of the contract list that is for another symbol. *)
Definition other_symbol (symbol : string) (item : pyval) : Prop :=
  exists v, getitem item "symbol" = Ok v /\ eq_str v symbol = false.

(** The configuration document, as far as the script reads it: the value
    [l] under [data], [contractConfig], [perpetualContract]. *)
Definition configs_with (l : pyval) (response : pyval) : Prop :=
  exists d dd cc,
    response = PDict d /\
    lookup "data" d = Some (PDict dd) /\
    lookup "contractConfig" dd = Some (PDict cc) /\
    lookup "perpetualContract" cc = Some l.

End Spec.
Export Spec.

(** ** A venue to run the script against *)

Module Scenario.

(** [decimal.Decimal(x)] for the integers and the plain numerals; a string
    outside the fragment of [parse_plain] and the other kinds of value are
    not covered and are answered with an error here. *)
Definition Decimal_of_plain (v : pyval) : result Decimal :=
  match v with
  | PInt n => Ok (of_int n)
  | PStr s =>
      match parse_plain s with
      | Some d => Ok d
      | None => Err (DecimalException InvalidOperation)
      end
  | _ => Err TypeError
  end.

Definition balance_response (balance : string) : pyval :=
  PDict [("data", PDict [("availableBalance", PStr balance)])]%string.

Definition configs_response (symbol tick step : string) : pyval :=
  PDict [("data",
    PDict [("contractConfig",
      PDict [("perpetualContract",
        PList [PDict [("symbol", PStr symbol);
                      ("tickSize", PStr tick);
                      ("stepSize", PStr step)]])])])]%string.

Definition ticker_response (price : string) : pyval :=
  PDict [("data", PList [PDict [("lastPrice", PStr price)]])]%string.

Definition order_response : pyval :=
  PDict [("data", PDict [("id", PStr "1")])]%string.

(** The market the venue reports. *)
Record market := mkMarket {
  m_account : pyval;
  m_balance : string;
  m_tick : string;
  m_step : string;
  m_price : string
}.

Definition answer (m : market) (c : call) : pyval :=
  match c with
  | get_account_v3 => m_account m
  | get_account_balance_v3 => balance_response (m_balance m)
  | configs_v3 => configs_response "BTC-USDT" (m_tick m) (m_step m)
  | ticker_v3 _ => ticker_response (m_price m)
  | create_order_v3 _ => order_response
  end.

(** The world is the number of faults the venue still has in store: while
    there is one, a call is answered with [fault]. *)
Definition venue (m : market) (fault : result pyval) : env nat :=
  mkEnv
    (fun c w =>
       match w with
       | O => (Ok (answer m c), O)
       | S w' => (fault, w')
       end)
    (fun w => (1700000000, w)).

Definition btc : market :=
  mkMarket (PDict []) "1000" "0.5" "0.001" "50000".

(** The same market, seen from another account. *)
Definition btc_other_account : market :=
  mkMarket (PDict [("data", PDict [("id", PStr "7")])]%string)
           "1000" "0.5" "0.001" "50000".

Definition timeout : result pyval := Err (RequestException "timed out").

Definition start (faults : nat) : state nat := mkState faults [].

Definition argv : list string :=
  ["alpha_entry.py"; "BTC-USDT"; "buy"; "10"; "5"; "2"]%string.

End Scenario.

(** * Properties

    First the arithmetic of the decimal context, then the traces of the
    script, then the statements about the script itself. *)

(** [vm_compute] on a closed comparison. *)
Ltac qcalc := vm_compute; first [reflexivity | discriminate].

(** ** Digits and powers of ten *)

Module DecFacts.

Lemma pow10_pos (k : Z) : 0 <= k -> 0 < 10 ^ k.
Proof. intros. apply Z.pow_pos_nonneg; lia. Qed.

Lemma ndigits_aux_bounds (fuel : nat) :
  forall c, 0 < c -> c < 2 ^ (Z.of_nat fuel + 1) ->
    10 ^ (ndigits_aux fuel c - 1) <= c < 10 ^ (ndigits_aux fuel c)
    /\ 1 <= ndigits_aux fuel c.
Proof.
  induction fuel as [|f IH]; intros c Hpos Hlt.
  - simpl in *. lia.
  - cbn [ndigits_aux]. destruct (c <? 10) eqn:Hc.
    + apply Z.ltb_lt in Hc. simpl. lia.
    + apply Z.ltb_ge in Hc.
      assert (Hq : 0 < c / 10) by (apply Z.div_str_pos; lia).
      assert (Hlt' : c / 10 < 2 ^ (Z.of_nat f + 1)).
      { apply Z.div_lt_upper_bound; [lia|].
        replace (Z.of_nat (S f) + 1) with (Z.succ (Z.of_nat f + 1)) in Hlt by lia.
        rewrite Z.pow_succ_r in Hlt by lia. lia. }
      destruct (IH _ Hq Hlt') as [[Hlo Hhi] H1].
      set (n := ndigits_aux f (c / 10)) in *.
      replace (1 + n - 1) with (Z.succ (n - 1)) by lia.
      replace (1 + n) with (Z.succ n) by lia.
      rewrite !Z.pow_succ_r by lia.
      pose proof (Z.div_mod c 10 ltac:(lia)).
      pose proof (Z.mod_pos_bound c 10 ltac:(lia)).
      lia.
Qed.

Lemma ndigits_bounds (c : Z) :
  0 < c -> 10 ^ (ndigits c - 1) <= c < 10 ^ ndigits c /\ 1 <= ndigits c.
Proof.
  intros Hc. unfold ndigits. apply ndigits_aux_bounds; [lia|].
  rewrite Z2Nat.id by apply Z.log2_nonneg.
  replace (Z.log2 c + 1) with (Z.succ (Z.log2 c)) by lia.
  apply Z.log2_spec. lia.
Qed.

Lemma pow10_lt_inv (a b : Z) : 0 <= a -> 0 <= b -> 10 ^ a < 10 ^ b -> a < b.
Proof. intros Ha Hb H. apply (Z.pow_lt_mono_r_iff 10); lia. Qed.

Lemma ndigits_le (c n : Z) : 0 < c -> 0 <= n -> c < 10 ^ n -> ndigits c <= n.
Proof.
  intros Hc Hn Hlt. destruct (ndigits_bounds c Hc) as [[Hlo _] H1].
  assert (10 ^ (ndigits c - 1) < 10 ^ n) by lia.
  apply pow10_lt_inv in H; lia.
Qed.

Lemma ndigits_gt (c n : Z) : 0 <= n -> 10 ^ n <= c -> n < ndigits c.
Proof.
  intros Hn Hle. assert (Hc : 0 < c) by (pose proof (pow10_pos n Hn); lia).
  destruct (ndigits_bounds c Hc) as [[_ Hhi] H1].
  assert (10 ^ n < 10 ^ ndigits c) by lia.
  apply pow10_lt_inv in H; lia.
Qed.

(** Powers of ten in Q. *)

Lemma Q10_neq0 : ~ (10 == 0)%Q.
Proof. discriminate. Qed.

Lemma p10_pos (e : Z) : (0 < 10 ^ e)%Q.
Proof. apply Qpower_0_lt. reflexivity. Qed.

Lemma p10_add (a b : Z) : (10 ^ (a + b) == 10 ^ a * 10 ^ b)%Q.
Proof. apply Qpower_plus. exact Q10_neq0. Qed.

Lemma p10_inject (k : Z) : 0 <= k -> (inject_Z (10 ^ k) == 10 ^ k)%Q.
Proof. intros. rewrite Zpower_Qpower by assumption. reflexivity. Qed.

Lemma scale_shift (c k e : Z) :
  0 <= k -> (inject_Z (c * 10 ^ k) * 10 ^ e == inject_Z c * 10 ^ (e + k))%Q.
Proof.
  intros Hk. rewrite inject_Z_mult, p10_inject by assumption.
  rewrite p10_add. ring.
Qed.

Lemma dval_mag (d : Decimal) :
  (dval d == if dsign d then - mag d else mag d)%Q.
Proof.
  unfold dval, mag, signed. destruct (dsign d).
  - rewrite inject_Z_opp. ring.
  - reflexivity.
Qed.

Lemma mag_nonneg (d : Decimal) : (0 <= mag d)%Q.
Proof.
  unfold mag. apply Qmult_le_0_compat.
  - change 0%Q with (inject_Z 0). rewrite <- Zle_Qle. unfold dcoef. lia.
  - apply Qlt_le_weak, p10_pos.
Qed.

End DecFacts.
Import DecFacts.

(** ** Rounding to the context *)

Module FixFacts.

Lemma fix_sign s c e d f : _fix s c e = Ok (d, f) -> dsign d = s.
Proof.
  intros H. unfold _fix in H.
  destruct (c =? 0); [inversion H; reflexivity|].
  destruct (Etop <? ndigits c + e - prec); [discriminate|].
  destruct (e <? Z.max (ndigits c + e - prec) Etiny).
  - cbv zeta in H.
    match type of H with context [let '(_, _) := ?p in _] => destruct p end.
    destruct (Etop <? _); [discriminate|]. inversion H; reflexivity.
  - inversion H; reflexivity.
Qed.

Lemma fix_zero s e :
  _fix s 0 e = Ok (mkDec s 0 (Z.min (Z.max e Etiny) Emax), false).
Proof. reflexivity. Qed.


(** A triple the context can hold is returned as it is. *)
Lemma fix_representable s c e :
  0 < c < 10 ^ prec -> Etiny <= e -> ndigits c + e - prec <= Etop ->
  _fix s c e = Ok (mkDec s (Z.to_N c) e, false).
Proof.
  intros [Hc Hlt] He Htop. unfold _fix.
  replace (c =? 0) with false by (symmetry; apply Z.eqb_neq; lia).
  replace (Etop <? ndigits c + e - prec) with false
    by (symmetry; apply Z.ltb_ge; lia).
  assert (ndigits c <= prec) by (apply ndigits_le; [lia| unfold prec; lia |assumption]).
  replace (e <? Z.max (ndigits c + e - prec) Etiny) with false
    by (symmetry; apply Z.ltb_ge; lia).
  reflexivity.
Qed.

(** Without Inexact the value is kept. *)
Lemma fix_exact s c e d :
  0 <= c -> _fix s c e = Ok (d, false) ->
  (mag d == inject_Z c * 10 ^ e)%Q.
Proof.
  intros Hc H. unfold _fix in H.
  destruct (c =? 0) eqn:Hz.
  { apply Z.eqb_eq in Hz. subst c. inversion H.
    unfold mag, dcoef; cbn [dint dexp]. change (inject_Z (Z.of_N 0)) with 0%Q.
    ring. }
  destruct (Etop <? ndigits c + e - prec); [discriminate|].
  destruct (e <? Z.max (ndigits c + e - prec) Etiny) eqn:Hr.
  - cbv zeta in H.
    set (k := Z.max (ndigits c + e - prec) Etiny - e) in *.
    apply Z.ltb_lt in Hr. assert (Hk : 0 < k) by (unfold k; lia).
    destruct (c mod 10 ^ k =? 0) eqn:Hrem.
    + apply Z.eqb_eq in Hrem. rewrite Hrem in H.
      pose proof (pow10_pos k ltac:(lia)) as Hp.
      replace (10 ^ k <? 2 * 0) with false in H by (symmetry; apply Z.ltb_ge; lia).
      replace (2 * 0 =? 10 ^ k) with false in H by (symmetry; apply Z.eqb_neq; lia).
      simpl in H.
      destruct (Etop <? _); [discriminate|]. inversion H.
      unfold mag, dcoef; cbn [dint dexp].
      assert (0 <= c / 10 ^ k) by (apply Z.div_pos; lia).
      rewrite Z2N.id by assumption.
      assert (Hcq : c = (c / 10 ^ k) * 10 ^ k).
      { pose proof (Z.div_mod c (10 ^ k) ltac:(lia)). lia. }
      replace (Z.max (ndigits c + e - prec) Etiny) with (e + k) by (unfold k; lia).
      rewrite <- scale_shift by lia. rewrite <- Hcq. reflexivity.
    + match type of H with context [let '(_, _) := ?p in _] => destruct p end.
      destruct (Etop <? _); [discriminate|]. inversion H.
  - inversion H. unfold mag, dcoef; cbn [dint dexp].
    rewrite Z2N.id by assumption. reflexivity.
Qed.


(** A rounded coefficient that does not end in 0 raises Inexact. *)
Lemma fix_inexact s c e d f :
  10 ^ prec <= c -> c mod 10 <> 0 -> _fix s c e = Ok (d, f) -> f = true.
Proof.
  intros Hc Hlast H.
  assert (Hpos : 0 < c) by (pose proof (pow10_pos prec ltac:(unfold prec; lia)); lia).
  assert (Hnd : prec < ndigits c) by (apply ndigits_gt; [unfold prec; lia|assumption]).
  unfold _fix in H.
  replace (c =? 0) with false in H by (symmetry; apply Z.eqb_neq; lia).
  destruct (Etop <? ndigits c + e - prec); [discriminate|].
  replace (e <? Z.max (ndigits c + e - prec) Etiny) with true in H
    by (symmetry; apply Z.ltb_lt; lia).
  cbv zeta in H.
  set (k := Z.max (ndigits c + e - prec) Etiny - e) in *.
  assert (Hk : 0 < k) by (unfold k; lia).
  assert (Hrem : c mod 10 ^ k <> 0).
  { intros Hr. apply Hlast.
    replace k with (Z.succ (k - 1)) in Hr by lia.
    rewrite Z.pow_succ_r in Hr by lia.
    apply Z.mod_divide in Hr; [|pose proof (pow10_pos (k - 1) ltac:(lia)); lia].
    apply Z.mod_divide; [lia|].
    destruct Hr as [x Hx]. exists (x * 10 ^ (k - 1)). lia. }
  match type of H with context [let '(_, _) := ?p in _] => destruct p end.
  destruct (Etop <? _); [discriminate|]. inversion H.
  apply Z.eqb_neq in Hrem. rewrite Hrem. reflexivity.
Qed.

End FixFacts.
Import FixFacts.

(** ** The operations without Inexact *)

Module OpFacts.

Lemma xorb_sign_mul (s t : bool) (x y : Q) :
  ((if xorb s t then - (x * y) else x * y) ==
   (if s then - x else x) * (if t then - y else y))%Q.
Proof. destruct s, t; simpl; ring. Qed.

Lemma mag_mul (a b : Decimal) :
  (inject_Z (dcoef a * dcoef b) * 10 ^ (dexp a + dexp b) == mag a * mag b)%Q.
Proof. unfold mag. rewrite inject_Z_mult, p10_add. ring. Qed.

Lemma coef_nonneg (d : Decimal) : 0 <= dcoef d.
Proof. unfold dcoef. lia. Qed.

(** [a * b] without Inexact is the product. *)
Lemma dmul_exact a b d :
  dmul a b = Ok (d, false) -> (dval d == dval a * dval b)%Q.
Proof.
  intros H. unfold dmul in H.
  pose proof (fix_sign _ _ _ _ _ H) as Hs.
  apply fix_exact in H;
    [|apply Z.mul_nonneg_nonneg; apply coef_nonneg].
  rewrite mag_mul in H.
  rewrite (dval_mag d), (dval_mag a), (dval_mag b), Hs.
  destruct (dsign a), (dsign b); cbn [xorb]; rewrite H; ring.
Qed.

Lemma dmul_sign a b d f :
  dmul a b = Ok (d, f) -> dsign d = xorb (dsign a) (dsign b).
Proof. intros H. exact (fix_sign _ _ _ _ _ H). Qed.

Lemma signed_scale (d : Decimal) (e : Z) :
  e <= dexp d ->
  (inject_Z (signed d * 10 ^ (dexp d - e)) * 10 ^ e == dval d)%Q.
Proof.
  intros He. rewrite scale_shift by lia.
  replace (e + (dexp d - e)) with (dexp d) by lia. reflexivity.
Qed.

Lemma coef_scale (d : Decimal) (e : Z) :
  e <= dexp d ->
  (inject_Z (dcoef d * 10 ^ (dexp d - e)) * 10 ^ e == mag d)%Q.
Proof.
  intros He. rewrite scale_shift by lia.
  replace (e + (dexp d - e)) with (dexp d) by lia. reflexivity.
Qed.

(** [a + b] without Inexact is the sum. *)
Lemma dadd_exact a b d :
  dadd a b = Ok (d, false) -> (dval d == dval a + dval b)%Q.
Proof.
  intros H. unfold dadd in H.
  set (e := Z.min (dexp a) (dexp b)) in *.
  set (s := signed a * 10 ^ (dexp a - e) + signed b * 10 ^ (dexp b - e)) in *.
  pose proof (fix_sign _ _ _ _ _ H) as Hs.
  apply fix_exact in H; [|lia].
  assert (Hv : (dval d == inject_Z s * 10 ^ e)%Q).
  { rewrite dval_mag, Hs. destruct (s =? 0) eqn:Hz.
    - apply Z.eqb_eq in Hz. rewrite Hz in H |- *. simpl Z.abs in H.
      destruct (dsign a && dsign b); rewrite H; ring.
    - apply Z.eqb_neq in Hz. destruct (s <? 0) eqn:Hneg; rewrite H.
      + apply Z.ltb_lt in Hneg. rewrite Z.abs_neq by lia.
        rewrite inject_Z_opp. ring.
      + apply Z.ltb_ge in Hneg. rewrite Z.abs_eq by lia. reflexivity. }
  rewrite Hv. unfold s. rewrite inject_Z_plus, Qmult_plus_distr_l.
  rewrite !signed_scale by (unfold e; lia). reflexivity.
Qed.

Lemma dval_negate (d : Decimal) : (dval (negate d) == - dval d)%Q.
Proof.
  rewrite !dval_mag. unfold negate, mag, dcoef. cbn [dsign dint dexp].
  destruct (dsign d); simpl; ring.
Qed.

Lemma dsub_exact a b d :
  dsub a b = Ok (d, false) -> (dval d == dval a - dval b)%Q.
Proof.
  intros H. unfold dsub in H. apply dadd_exact in H.
  rewrite H, dval_negate. ring.
Qed.

(** The loop keeps the value. *)
Lemma strip_zeros_value (n : nat) :
  forall c e c' e', 0 <= c -> strip_zeros n c e = (c', e') ->
    0 <= c' /\ (inject_Z c' * 10 ^ e' == inject_Z c * 10 ^ e)%Q.
Proof.
  induction n as [|n IH]; intros c e c' e' Hc H; cbn [strip_zeros] in H.
  - inversion H; subst. split; [assumption|reflexivity].
  - destruct (c mod 10 =? 0) eqn:Hm.
    + apply Z.eqb_eq in Hm.
      assert (Hq : 0 <= c / 10) by (apply Z.div_pos; lia).
      destruct (IH _ _ _ _ Hq H) as [Hc' Hv]. split; [assumption|].
      rewrite Hv.
      assert (Hcq : c = c / 10 * 10 ^ 1).
      { pose proof (Z.div_mod c 10 ltac:(lia)). lia. }
      rewrite Hcq at 2. rewrite scale_shift by lia. reflexivity.
    + inversion H; subst. split; [assumption|reflexivity].
Qed.

Lemma mod5_mod10 (c : Z) :
  (if c mod 5 =? 0 then c + 1 else c) mod 10 <> 0.
Proof.
  destruct (c mod 5 =? 0) eqn:H5.
  - apply Z.eqb_eq in H5.
    pose proof (Z.div_mod c 5 ltac:(lia)).
    pose proof (Z.div_mod (c + 1) 10 ltac:(lia)).
    pose proof (Z.mod_pos_bound (c + 1) 10 ltac:(lia)). lia.
  - apply Z.eqb_neq in H5.
    pose proof (Z.div_mod c 5 ltac:(lia)).
    pose proof (Z.mod_pos_bound c 5 ltac:(lia)).
    pose proof (Z.div_mod c 10 ltac:(lia)).
    pose proof (Z.mod_pos_bound c 10 ltac:(lia)). lia.
Qed.

Lemma mag_pos (d : Decimal) : dcoef d <> 0 -> (0 < mag d)%Q.
Proof.
  intros H. unfold mag. apply Qmult_lt_0_compat; [|apply p10_pos].
  change 0%Q with (inject_Z 0). rewrite <- Zlt_Qlt.
  pose proof (coef_nonneg d). lia.
Qed.

Lemma mag_zero (d : Decimal) : dcoef d = 0 -> (mag d == 0)%Q.
Proof. intros H. unfold mag. rewrite H. ring. Qed.

(** The quotient of [__truediv__] has more than [prec] digits. *)
Lemma div_coeff_large (ca cb : Z) :
  0 < ca -> 0 < cb ->
  let shift := ndigits cb - ndigits ca + prec + 1 in
  let num := if 0 <=? shift then ca * 10 ^ shift else ca in
  let den := if 0 <=? shift then cb else cb * 10 ^ (- shift) in
  0 < den /\ 10 ^ prec <= num / den.
Proof.
  intros Ha Hb shift num den.
  destruct (ndigits_bounds ca Ha) as [[Hlo_a Hhi_a] H1a].
  destruct (ndigits_bounds cb Hb) as [[Hlo_b Hhi_b] H1b].
  set (la := ndigits ca) in *. set (lb := ndigits cb) in *.
  assert (Hp : 0 < 10 ^ prec) by (apply pow10_pos; unfold prec; lia).
  subst num den. destruct (0 <=? shift) eqn:Hs.
  - apply Z.leb_le in Hs. split; [assumption|].
    apply Z.div_le_lower_bound; [assumption|].
    assert (10 ^ (la - 1) * 10 ^ shift = 10 ^ lb * 10 ^ prec).
    { rewrite <- !Z.pow_add_r by (unfold prec in *; lia). f_equal.
      unfold shift. lia. }
    pose proof (pow10_pos shift Hs). nia.
  - apply Z.leb_gt in Hs.
    pose proof (pow10_pos (- shift) ltac:(lia)) as Hq.
    split; [nia|].
    apply Z.div_le_lower_bound; [nia|].
    assert (10 ^ lb * 10 ^ (- shift) * 10 ^ prec = 10 ^ (la - 1)).
    { rewrite <- !Z.pow_add_r by (unfold prec in *; lia). f_equal.
      unfold shift. lia. }
    nia.
Qed.

(** [a / b] without Inexact is the quotient. *)
Lemma ddiv_exact a b d :
  ddiv a b = Ok (d, false) -> (dval d == dval a / dval b)%Q.
Proof.
  intros H. unfold ddiv in H.
  destruct (dcoef b =? 0) eqn:Hb.
  { destruct (dcoef a =? 0); discriminate. }
  apply Z.eqb_neq in Hb.
  pose proof (coef_nonneg a) as Ha0. pose proof (coef_nonneg b) as Hb0.
  pose proof (mag_pos b Hb) as Hmb.
  assert (Hsign : forall x : Q,
             ((if xorb (dsign a) (dsign b) then - x else x) * dval b ==
              (if dsign a then - (x * mag b) else x * mag b))%Q).
  { intros x. rewrite (dval_mag b). destruct (dsign a), (dsign b); simpl; ring. }
  assert (Hnz : ~ (dval b == 0)%Q).
  { rewrite dval_mag. intros E. destruct (dsign b).
    - assert (E' : (mag b == 0)%Q).
      { rewrite <- (Qopp_involutive (mag b)), E. reflexivity. }
      rewrite E' in Hmb. discriminate.
    - rewrite E in Hmb. discriminate. }
  apply Qmult_inj_r with (z := dval b); [assumption|].
  unfold Qdiv. rewrite <- Qmult_assoc, (Qmult_comm (/ dval b)), Qmult_inv_r
    by assumption. rewrite Qmult_1_r.
  destruct (dcoef a =? 0) eqn:Ha.
  { apply Z.eqb_eq in Ha. pose proof (fix_sign _ _ _ _ _ H) as Hs.
    apply fix_exact in H; [|lia].
    rewrite (dval_mag d), Hs, Hsign, (dval_mag a).
    destruct (dsign a); rewrite H, (mag_zero a Ha); ring. }
  apply Z.eqb_neq in Ha.
  cbv zeta in H.
  destruct (div_coeff_large (dcoef a) (dcoef b) ltac:(lia) ltac:(lia))
    as [Hden Hlarge].
  set (shift := ndigits (dcoef b) - ndigits (dcoef a) + prec + 1) in *.
  set (num := if 0 <=? shift then dcoef a * 10 ^ shift else dcoef a) in *.
  set (den := if 0 <=? shift then dcoef b else dcoef b * 10 ^ (- shift)) in *.
  set (exp := dexp a - dexp b - shift) in *.
  assert (Hnum0 : 0 <= num).
  { unfold num. destruct (0 <=? shift) eqn:Hsh; [|lia].
    apply Z.leb_le in Hsh. pose proof (pow10_pos shift Hsh). nia. }
  destruct (num mod den =? 0) eqn:Hrem.
  - apply Z.eqb_eq in Hrem.
    destruct (strip_zeros _ (num / den) exp) as [c' e'] eqn:Hstrip.
    apply strip_zeros_value in Hstrip; [|apply Z.div_pos; lia].
    destruct Hstrip as [Hc' Hv].
    pose proof (fix_sign _ _ _ _ _ H) as Hs.
    apply fix_exact in H; [|assumption].
    rewrite (dval_mag d), Hs, Hsign, (dval_mag a).
    assert (Hkey : (inject_Z (num / den) * 10 ^ exp * mag b == mag a)%Q).
    { assert (Hnd : num = num / den * den).
      { pose proof (Z.div_mod num den ltac:(lia)). lia. }
      unfold mag, exp. subst num den. destruct (0 <=? shift) eqn:Hsh.
      - apply Z.leb_le in Hsh.
        set (q := dcoef a * 10 ^ shift / dcoef b) in *.
        transitivity (inject_Z (q * dcoef b) * 10 ^ (dexp a - shift))%Q.
        + replace (dexp a - dexp b - shift) with ((dexp a - shift) + - dexp b) by lia.
          rewrite inject_Z_mult, (p10_add (dexp a - shift)), Qpower_opp.
          field. apply Qpower_not_0, Q10_neq0.
        + rewrite <- Hnd, scale_shift by assumption.
          replace (dexp a - shift + shift) with (dexp a) by lia. reflexivity.
      - apply Z.leb_gt in Hsh.
        set (q := dcoef a / (dcoef b * 10 ^ (- shift))) in *.
        transitivity (inject_Z (q * (dcoef b * 10 ^ (- shift))) * 10 ^ dexp a)%Q;
          [|rewrite <- Hnd; reflexivity].
        rewrite Z.mul_assoc, scale_shift by lia.
        replace (dexp a - dexp b - shift) with ((dexp a + - shift) + - dexp b) by lia.
        rewrite inject_Z_mult, (p10_add (dexp a + - shift)), Qpower_opp.
        field. apply Qpower_not_0, Q10_neq0. }
    destruct (dsign a); rewrite H, Hv, Hkey; reflexivity.
  - exfalso. apply fix_inexact in H; [discriminate| |apply mod5_mod10].
    destruct (num / den mod 5 =? 0); lia.
Qed.


End OpFacts.
Import OpFacts.

(** ** [(x // g) * g] *)

Module QuantizeFacts.

Lemma dbind_ok {A B} (m : D A) (k : A -> D B) b :
  dbind m k = Ok (b, false) ->
  exists a, m = Ok (a, false) /\ k a = Ok (b, false).
Proof.
  unfold dbind. destruct m as [[a f]|e]; [|discriminate].
  destruct (k a) as [[b' g]|e] eqn:Hk; [|discriminate].
  intros H. inversion H. subst b'.
  destruct f, g; try discriminate. exists a. split; [reflexivity|assumption].
Qed.

Lemma dcoef_mk s n e : dcoef (mkDec s n e) = Z.of_N n.
Proof. reflexivity. Qed.

Lemma dval_pos_inv (d : Decimal) :
  (0 < dval d)%Q -> dsign d = false /\ dcoef d <> 0.
Proof.
  intros H. rewrite dval_mag in H. pose proof (mag_nonneg d) as Hm.
  split.
  - destruct (dsign d); [|reflexivity]. exfalso.
    cbv iota in H. set (x := mag d) in *. lra.
  - intros Hz. apply mag_zero in Hz. destruct (dsign d); rewrite Hz in H;
      discriminate.
Qed.

Lemma dval_pos_mag (d : Decimal) : (0 < dval d)%Q -> (dval d == mag d)%Q.
Proof.
  intros H. destruct (dval_pos_inv d H) as [Hs _].
  rewrite dval_mag, Hs. reflexivity.
Qed.

Lemma dfloordiv_ok a b q f :
  dfloordiv a b = Ok (q, f) ->
  let e := Z.min (dexp a) (dexp b) in
  dcoef b <> 0 /\ f = false /\ dsign q = xorb (dsign a) (dsign b) /\
  dexp q = 0 /\
  dcoef q = (dcoef a * 10 ^ (dexp a - e)) / (dcoef b * 10 ^ (dexp b - e)).
Proof.
  intros H e. unfold dfloordiv in H. fold e in H.
  destruct (dcoef b =? 0) eqn:Hb.
  { destruct (dcoef a =? 0); discriminate. }
  apply Z.eqb_neq in Hb.
  destruct (_ <? 10 ^ prec); [|discriminate].
  inversion H. subst q f. rewrite dcoef_mk. cbn [dint dsign dexp].
  repeat split; try assumption.
  rewrite Z2N.id; [reflexivity|].
  pose proof (coef_nonneg a). pose proof (coef_nonneg b).
  pose proof (pow10_pos (dexp a - e) ltac:(unfold e; lia)).
  pose proof (pow10_pos (dexp b - e) ltac:(unfold e; lia)).
  apply Z.div_pos; nia.
Qed.

(** [(x // g) * g] without Inexact: the magnitude of [x] truncated to a
    multiple of the magnitude of [g], with the sign of the product. *)
Lemma quantize_mag x g r :
  quantize x g = Ok (r, false) ->
  exists q : Z,
    0 <= q /\ dcoef g <> 0 /\
    (mag r == inject_Z q * mag g)%Q /\
    (inject_Z q * mag g <= mag x)%Q /\
    (mag x < inject_Z q * mag g + mag g)%Q /\
    dsign r = xorb (xorb (dsign x) (dsign g)) (dsign g).
Proof.
  intros H. unfold quantize in H.
  apply dbind_ok in H. destruct H as [qd [Hq Hm]].
  apply dfloordiv_ok in Hq. cbv zeta in Hq.
  destruct Hq as (Hg & _ & Hs & He & Hc).
  set (e := Z.min (dexp x) (dexp g)) in *.
  set (A := dcoef x * 10 ^ (dexp x - e)) in *.
  set (B := dcoef g * 10 ^ (dexp g - e)) in *.
  pose proof (coef_nonneg x) as Hx0. pose proof (coef_nonneg g) as Hg0.
  pose proof (pow10_pos (dexp x - e) ltac:(unfold e; lia)) as Hpx.
  pose proof (pow10_pos (dexp g - e) ltac:(unfold e; lia)) as Hpg.
  assert (HB : 0 < B) by (unfold B; nia).
  assert (HA : 0 <= A) by (unfold A; nia).
  pose proof (Z.div_mod A B ltac:(lia)) as Hdm.
  pose proof (Z.mod_pos_bound A B HB) as Hmod.
  assert (Hq0 : 0 <= A / B) by (apply Z.div_pos; lia).
  exists (A / B). split; [assumption|]. split; [assumption|].
  assert (HmA : (inject_Z A * 10 ^ e == mag x)%Q)
    by (apply coef_scale; unfold e; lia).
  assert (HmB : (inject_Z B * 10 ^ e == mag g)%Q)
    by (apply coef_scale; unfold e; lia).
  pose proof (p10_pos e) as Hpe.
  unfold dmul in Hm. pose proof (fix_sign _ _ _ _ _ Hm) as Hsr.
  apply fix_exact in Hm; [|rewrite Hc; nia].
  rewrite Hc, He in Hm. rewrite Hs in Hsr.
  split; [|split; [|split; [|assumption]]].
  - rewrite Hm, inject_Z_mult. unfold mag.
    replace (0 + dexp g) with (dexp g) by lia. ring.
  - rewrite <- HmA, <- HmB, Qmult_assoc, <- inject_Z_mult.
    apply Qmult_le_compat_r; [|apply Qlt_le_weak; assumption].
    rewrite <- Zle_Qle. lia.
  - rewrite <- HmA, <- HmB.
    setoid_replace (inject_Z (A / B) * (inject_Z B * 10 ^ e) + inject_Z B * 10 ^ e)%Q
      with (inject_Z (A / B * B + B) * 10 ^ e)%Q
      by (rewrite inject_Z_plus, inject_Z_mult; ring).
    apply Qmult_lt_compat_r; [assumption|].
    rewrite <- Zlt_Qlt. lia.
Qed.

Lemma inject_Z_ge1 (q : Z) : 1 <= q -> (1 <= inject_Z q)%Q.
Proof. intros H. change 1%Q with (inject_Z 1). rewrite <- Zle_Qle. assumption. Qed.

(** For a positive grain. *)
Lemma quantize_trunc x g r :
  (0 < dval g)%Q -> quantize x g = Ok (r, false) ->
  dsign r = dsign x /\
  exists q : Z,
    0 <= q /\ (mag r == inject_Z q * dval g)%Q /\
    (mag r <= mag x)%Q /\ (mag x < mag r + dval g)%Q /\
    ((mag x < dval g)%Q -> q = 0).
Proof.
  intros Hg H. pose proof (dval_pos_mag g Hg) as Hgm.
  destruct (dval_pos_inv g Hg) as [Hsg _].
  destruct (quantize_mag x g r H) as (q & Hq0 & _ & Hr & Hle & Hlt & Hs).
  rewrite Hsg in Hs. split.
  { rewrite Hs. destruct (dsign x); reflexivity. }
  exists q. rewrite Hgm in *. rewrite Hr.
  repeat split; try assumption.
  intros Hsmall.
  destruct (Z.eq_dec q 0) as [|Hne]; [assumption|exfalso].
  pose proof (inject_Z_ge1 q ltac:(lia)) as H1.
  assert (Hprod : (0 <= (inject_Z q - 1) * mag g)%Q).
  { apply Qmult_le_0_compat; [lra|apply mag_nonneg]. }
  set (m := mag g) in *. set (mx := mag x) in *. set (iq := inject_Z q) in *.
  lra.
Qed.

Lemma quantize_total x g :
  dcoef g <> 0 -> fits x g -> exists r, quantize x g = Ok (r, false).
Proof.
  intros Hg [Hfit [Hlo Hhi]]. unfold quantize, dfloordiv.
  replace (dcoef g =? 0) with false by (symmetry; apply Z.eqb_neq; assumption).
  set (e := Z.min (dexp x) (dexp g)) in *.
  set (A := dcoef x * 10 ^ (dexp x - e)) in *.
  set (B := dcoef g * 10 ^ (dexp g - e)) in *.
  pose proof (coef_nonneg x) as Hx0. pose proof (coef_nonneg g) as Hg0.
  pose proof (pow10_pos (dexp x - e) ltac:(unfold e; lia)) as Hpx.
  pose proof (pow10_pos (dexp g - e) ltac:(unfold e; lia)) as Hpg.
  assert (HB : 0 < B) by (unfold B; nia).
  assert (HA : 0 <= A) by (unfold A; nia).
  pose proof (Z.div_mod A B ltac:(lia)) as Hdm.
  pose proof (Z.mod_pos_bound A B HB) as Hmod.
  assert (Hq0 : 0 <= A / B) by (apply Z.div_pos; lia).
  assert (HqA : A / B * dcoef g <= A).
  { assert (dcoef g <= B) by (unfold B; nia). nia. }
  assert (HqA' : A / B <= A) by nia.
  replace (A / B <? 10 ^ prec) with true by (symmetry; apply Z.ltb_lt; lia).
  unfold dbind, dmul. rewrite dcoef_mk. cbn [dsign dint dexp].
  rewrite Z2N.id by assumption.
  destruct (Z.eq_dec (A / B * dcoef g) 0) as [Hz|Hnz].
  - rewrite Hz, fix_zero. eexists. reflexivity.
  - rewrite fix_representable; [eexists; reflexivity|lia|lia|].
    assert (ndigits (A / B * dcoef g) <= prec).
    { apply ndigits_le; [lia|unfold prec; lia|lia]. }
    lia.
Qed.

End QuantizeFacts.
Import QuantizeFacts.

(** ** [(x // g) * g] in values *)

Module ValueFacts.

(** [(x // g) * g] without Inexact, in values: a multiple of [g], between
    zero and [x], less than one grain away from [x]. *)
Lemma quantize_value x g r :
  (0 < dval g)%Q -> quantize x g = Ok (r, false) ->
  multiple_of r g /\
  ((0 <= dval x)%Q ->
     (0 <= dval r)%Q /\ (dval r <= dval x)%Q /\ (dval x < dval r + dval g)%Q /\
     ((dval x < dval g)%Q -> (dval r == 0)%Q)) /\
  ((dval x <= 0)%Q ->
     (dval r <= 0)%Q /\ (dval x <= dval r)%Q /\ (dval r - dval g < dval x)%Q).
Proof.
  intros Hg H.
  destruct (quantize_trunc x g r Hg H) as (Hs & q & Hq0 & Hr & Hle & Hlt & Hsmall).
  pose proof (mag_nonneg x) as Hmx. pose proof (mag_nonneg r) as Hmr.
  pose proof (dval_mag x) as Hvx. pose proof (dval_mag r) as Hvr.
  rewrite Hs in Hvr.
  assert (Hzero : (mag x < dval g)%Q -> (mag r == 0)%Q).
  { intros Hlt'. rewrite Hr, (Hsmall Hlt'). ring. }
  split.
  - destruct (dsign x).
    + exists (- q). rewrite Hvr, Hr, inject_Z_opp. ring.
    + exists q. rewrite Hvr, Hr. reflexivity.
  - set (mx := mag x) in *. set (mr := mag r) in *.
    set (vx := dval x) in *. set (vr := dval r) in *. set (vg := dval g) in *.
    clearbody mx mr vx vr vg. clear Hr Hsmall.
    destruct (dsign x); split; intros Hx; repeat split; try lra;
      intros Hxg; assert (mr == 0)%Q by (apply Hzero; lra); lra.
Qed.

Lemma quantize_truncated x g r :
  (0 < dval g)%Q -> quantize x g = Ok (r, false) -> truncated r x g.
Proof.
  intros Hg H. destruct (quantize_value x g r Hg H) as (Hm & Hpos & Hneg).
  split; [assumption|]. split; [|assumption].
  intros Hx. destruct (Hpos Hx) as (H0 & Hle & Hlt & _).
  split; [assumption|]. split; assumption.
Qed.

Lemma quantize_sign x g r :
  (0 < dval g)%Q -> quantize x g = Ok (r, false) -> dsign r = dsign x.
Proof. intros Hg H. exact (proj1 (quantize_trunc x g r Hg H)). Qed.

End ValueFacts.
Import ValueFacts.

(** ** Signs *)

Module NegFacts.
















Section Sizing.

Variable Decimal_of : pyval -> result Decimal.



End Sizing.

End NegFacts.
Import NegFacts.

(** ** The steps of the sizing and of the bracket prices *)

Module StepFacts.


Lemma pureD_ok {A} (r : result A) a f : pureD r = Ok (a, f) -> r = Ok a.
Proof. destruct r; simpl; intros H; inversion H; reflexivity. Qed.

Lemma dret_ok {A} (a b : A) f : dret a = Ok (b, f) -> a = b.
Proof. unfold dret. intros H. inversion H. reflexivity. Qed.

Lemma dval_100 : (dval (of_int 100) == 100)%Q.
Proof. reflexivity. Qed.

Lemma dval_1 : (dval (of_int 1) == 1)%Q.
Proof. reflexivity. Qed.

Section Sizing.

Variable Decimal_of : pyval -> result Decimal.

(** The steps of [calculate_position_size] when nothing is rounded. *)
Lemma calculate_position_size_steps a lev p s r :
  calculate_position_size Decimal_of a lev p s = Ok (r, false) ->
  exists data balance margin raw,
    getitem a "data" = Ok data /\
    getitem data "availableBalance" = Ok balance /\
    Decimal_of balance = Ok margin /\
    (dval raw == dval margin * (dval lev * 100) / dval p)%Q /\
    quantize raw s = Ok (r, false).
Proof.
  intros H. unfold calculate_position_size in H.
  apply dbind_ok in H. destruct H as [data [Hdata H]].
  apply dbind_ok in H. destruct H as [balance [Hbal H]].
  apply dbind_ok in H. destruct H as [margin [Hmar H]].
  apply dbind_ok in H. destruct H as [rl [Hrl H]].
  apply dbind_ok in H. destruct H as [prod [Hprod H]].
  apply dbind_ok in H. destruct H as [raw [Hraw H]].
  apply pureD_ok in Hdata, Hbal, Hmar.
  apply dmul_exact in Hrl, Hprod. apply ddiv_exact in Hraw.
  exists data, balance, margin, raw. repeat split; try assumption.
  rewrite Hraw, Hprod, Hrl, dval_100. reflexivity.
Qed.

End Sizing.

(** The two branches of [bracket_prices] when nothing is rounded. *)
Lemma bracket_prices_buy d p tpp slp tick tp sl :
  String.eqb (lower d) "buy" = true ->
  bracket_prices d p tpp slp tick = Ok ((tp, sl), false) ->
  exists tp_raw sl_raw,
    (dval tp_raw == dval p * (1 + dval tpp / 100))%Q /\
    (dval sl_raw == dval p * (1 - dval slp / 100))%Q /\
    quantize tp_raw tick = Ok (tp, false) /\
    quantize sl_raw tick = Ok (sl, false).
Proof.
  intros Hd H. unfold bracket_prices in H. rewrite Hd in H.
  apply dbind_ok in H. destruct H as [raw [Hraw H]].
  apply dbind_ok in Hraw. destruct Hraw as [tf [Htf Hraw]].
  apply dbind_ok in Hraw. destruct Hraw as [tfac [Htfac Hraw]].
  apply dbind_ok in Hraw. destruct Hraw as [tpr [Htpr Hraw]].
  apply dbind_ok in Hraw. destruct Hraw as [sf [Hsf Hraw]].
  apply dbind_ok in Hraw. destruct Hraw as [sfac [Hsfac Hraw]].
  apply dbind_ok in Hraw. destruct Hraw as [spr [Hspr Hraw]].
  apply dret_ok in Hraw. subst raw. cbn [fst snd] in H.
  apply dbind_ok in H. destruct H as [tp' [Htp H]].
  apply dbind_ok in H. destruct H as [sl' [Hsl H]].
  apply dret_ok in H. inversion H. subst tp' sl'.
  apply ddiv_exact in Htf, Hsf. apply dadd_exact in Htfac.
  apply dsub_exact in Hsfac. apply dmul_exact in Htpr, Hspr.
  exists tpr, spr. repeat split; try assumption.
  - rewrite Htpr, Htfac, Htf, dval_1, dval_100. reflexivity.
  - rewrite Hspr, Hsfac, Hsf, dval_1, dval_100. reflexivity.
Qed.

Lemma bracket_prices_sell d p tpp slp tick tp sl :
  String.eqb (lower d) "buy" = false ->
  String.eqb (lower d) "sell" = true ->
  bracket_prices d p tpp slp tick = Ok ((tp, sl), false) ->
  exists tp_raw sl_raw,
    (dval tp_raw == dval p * (1 - dval tpp / 100))%Q /\
    (dval sl_raw == dval p * (1 + dval slp / 100))%Q /\
    quantize tp_raw tick = Ok (tp, false) /\
    quantize sl_raw tick = Ok (sl, false).
Proof.
  intros Hb Hd H. unfold bracket_prices in H. rewrite Hb, Hd in H.
  apply dbind_ok in H. destruct H as [raw [Hraw H]].
  apply dbind_ok in Hraw. destruct Hraw as [tf [Htf Hraw]].
  apply dbind_ok in Hraw. destruct Hraw as [tfac [Htfac Hraw]].
  apply dbind_ok in Hraw. destruct Hraw as [tpr [Htpr Hraw]].
  apply dbind_ok in Hraw. destruct Hraw as [sf [Hsf Hraw]].
  apply dbind_ok in Hraw. destruct Hraw as [sfac [Hsfac Hraw]].
  apply dbind_ok in Hraw. destruct Hraw as [spr [Hspr Hraw]].
  apply dret_ok in Hraw. subst raw. cbn [fst snd] in H.
  apply dbind_ok in H. destruct H as [tp' [Htp H]].
  apply dbind_ok in H. destruct H as [sl' [Hsl H]].
  apply dret_ok in H. inversion H. subst tp' sl'.
  apply ddiv_exact in Htf, Hsf. apply dsub_exact in Htfac.
  apply dadd_exact in Hsfac. apply dmul_exact in Htpr, Hspr.
  exists tpr, spr. repeat split; try assumption.
  - rewrite Htpr, Htfac, Htf, dval_1, dval_100. reflexivity.
  - rewrite Hspr, Hsfac, Hsf, dval_1, dval_100. reflexivity.
Qed.

(** A direction that is neither word is refused before any arithmetic. *)
Lemma bracket_prices_refused d p tpp slp tick :
  String.eqb (lower d) "buy" = false ->
  String.eqb (lower d) "sell" = false ->
  bracket_prices d p tpp slp tick =
  Err (ValueError "Direction must be either 'buy' or 'sell'").
Proof. intros Hb Hs. unfold bracket_prices. rewrite Hb, Hs. reflexivity. Qed.

(** Zero operands. *)






End StepFacts.
Import StepFacts.

(** ** What a run adds to the trace *)

Module TraceFacts.

Lemma orders_app (t t' : list event) : orders (t ++ t') = orders t ++ orders t'.
Proof.
  induction t as [|ev t IH]; [reflexivity|].
  destruct ev as [c| | | | | |]; cbn [orders app]; try exact IH.
  destruct c; cbn [orders app]; try exact IH. rewrite IH. reflexivity.
Qed.

Lemma sleeps_app (t t' : list event) : sleeps (t ++ t') = sleeps t ++ sleeps t'.
Proof.
  induction t as [|ev t IH]; [reflexivity|].
  destruct ev; cbn [sleeps app]; try exact IH. rewrite IH. reflexivity.
Qed.

Lemma orders_quiet (t : list event) :
  forallb (fun ev => negb (is_order ev)) t = true -> orders t = [].
Proof.
  induction t as [|ev t IH]; [reflexivity|].
  cbn [forallb]. intros H. apply andb_prop in H. destruct H as [Hev Ht].
  destruct ev as [c| | | | | |]; cbn [orders]; try exact (IH Ht).
  destruct c; cbn [orders]; try exact (IH Ht). discriminate.
Qed.

Section Run.

Context {W : Type}.

Lemma extends_refl P (st : state W) : extends P st st.
Proof. exists []. split; [symmetry; apply app_nil_r|constructor]. Qed.

Lemma extends_trans P (st1 st2 st3 : state W) :
  extends P st1 st2 -> extends P st2 st3 -> extends P st1 st3.
Proof.
  intros [t1 [H1 F1]] [t2 [H2 F2]]. exists (t1 ++ t2). split.
  - rewrite H2, H1. symmetry. apply app_assoc.
  - rewrite orders_app. apply Forall_app. split; assumption.
Qed.

Lemma extends_weaken (P Q : order_kwargs -> Prop) (st st' : state W) :
  (forall kw, P kw -> Q kw) -> extends P st st' -> extends Q st st'.
Proof.
  intros HPQ [tr [Ht HF]]. exists tr. split; [assumption|].
  eapply Forall_impl; eassumption.
Qed.

Lemma extends_event P (w : W) (st : state W) ev :
  (forall kw, ev = Called (create_order_v3 kw) -> P kw) ->
  extends P st (mkState w (trace st ++ [ev])).
Proof.
  intros H. exists [ev]. split; [reflexivity|].
  destruct ev as [c| | | | | |]; try constructor.
  destruct c; try constructor; [|constructor]. apply H. reflexivity.
Qed.

Lemma orders_in_ret P {A} (a : A) : orders_in P (@ret W A a).
Proof. intros st r st' H. inversion H. apply extends_refl. Qed.

Lemma orders_in_raise P {A} e : orders_in P (@raise W A e).
Proof. intros st r st' H. inversion H. apply extends_refl. Qed.

Lemma orders_in_liftR P {A} (x : result A) : orders_in P (@liftR W A x).
Proof. intros st r st' H. inversion H. apply extends_refl. Qed.

Lemma orders_in_liftD P {A} (x : D A) : orders_in P (@liftD W A x).
Proof.
  intros st r st' H. unfold liftD in H.
  destruct x as [[a f]|e]; inversion H; apply extends_refl.
Qed.

Lemma orders_in_bind P {A B} (m : M W A) (k : A -> M W B) :
  orders_in P m -> (forall a, orders_in P (k a)) -> orders_in P (bind m k).
Proof.
  intros Hm Hk st r st' H. unfold bind in H.
  destruct (m st) as [[a|e] st1] eqn:Hst.
  - eapply extends_trans; [eapply Hm; eassumption|eapply Hk; eassumption].
  - inversion H. subst. eapply Hm; eassumption.
Qed.

Lemma orders_in_emit P ev :
  is_order ev = false -> orders_in P (@emit W ev).
Proof.
  intros Hev st r st' H. unfold emit in H. inversion H.
  apply extends_event. intros kw ->. discriminate.
Qed.

Lemma orders_in_weaken (P Q : order_kwargs -> Prop) {A} (m : M W A) :
  (forall kw, P kw -> Q kw) -> orders_in P m -> orders_in Q m.
Proof.
  intros HPQ Hm st r st' H. eapply extends_weaken; [exact HPQ|].
  eapply Hm; eassumption.
Qed.

Variable E : env W.

Lemma orders_in_invoke P c :
  (forall kw, c = create_order_v3 kw -> P kw) -> orders_in P (invoke E c).
Proof.
  intros Hc st r st' H. unfold invoke in H.
  destruct (client E c (world st)) as [r' w]. inversion H.
  apply extends_event. intros kw Hkw. inversion Hkw. apply Hc. assumption.
Qed.

Lemma orders_in_now P : orders_in P (now E).
Proof.
  intros st r st' H. unfold now in H.
  destruct (time_time E (world st)) as [t w]. inversion H.
  exists []. split; [symmetry; apply app_nil_r|constructor].
Qed.

Lemma orders_in_attempt P (f : M W pyval) :
  orders_in P f -> orders_in P (attempt_call f).
Proof.
  intros Hf. unfold attempt_call. apply orders_in_bind; [assumption|].
  intros response. destruct response;
    first [apply orders_in_raise | apply orders_in_ret].
Qed.

Lemma orders_in_retry P (f : M W pyval) (l : list nat) :
  orders_in P f -> orders_in P (retry_loop f l).
Proof.
  intros Hf. induction l as [|attempt rest IH].
  - apply orders_in_raise.
  - intros st r st' H. cbn [retry_loop] in H.
    destruct (attempt_call f st) as [[response|e] st1] eqn:Ha;
      pose proof (orders_in_attempt P f Hf _ _ _ Ha) as H1.
    + inversion H. subst. exact H1.
    + destruct (caught_by_retry e).
      * eapply extends_trans; [exact H1|].
        revert H. generalize st1 r st'.
        change (orders_in P
                  (bind (emit (LogWarning e (attempt + 1) max_retries))
                     (fun _ => bind (emit (Sleep (backoff attempt)))
                                 (fun _ => retry_loop f rest)))).
        apply orders_in_bind; [apply orders_in_emit; reflexivity|]. intros _.
        apply orders_in_bind; [apply orders_in_emit; reflexivity|]. intros _.
        exact IH.
      * inversion H. subst. exact H1.
Qed.

Lemma orders_in_api_call P c :
  (forall kw, c = create_order_v3 kw -> P kw) ->
  orders_in P (api_call_with_retry (invoke E c)).
Proof. intros Hc. apply orders_in_retry, orders_in_invoke, Hc. Qed.

Variable Decimal_of : pyval -> result Decimal.

Lemma orders_in_fetch_account_data P : orders_in P (fetch_account_data E).
Proof.
  unfold fetch_account_data. apply orders_in_bind.
  - apply orders_in_api_call. discriminate.
  - intros a. apply orders_in_ret.
Qed.

Lemma orders_in_fetch_current_price P symbol :
  orders_in P (fetch_current_price E Decimal_of symbol).
Proof.
  unfold fetch_current_price.
  apply orders_in_bind; [apply orders_in_api_call; discriminate|]. intros ?.
  repeat (apply orders_in_bind; [apply orders_in_liftR|]; intros ?).
  apply orders_in_liftR.
Qed.

Lemma orders_in_fetch_tick_and_step_size P symbol :
  orders_in P (fetch_tick_and_step_size E Decimal_of symbol).
Proof.
  unfold fetch_tick_and_step_size.
  apply orders_in_bind; [apply orders_in_api_call; discriminate|]. intros ?.
  apply orders_in_bind; [apply orders_in_liftR|]. intros has_data.
  destruct (negb has_data); [apply orders_in_raise|].
  repeat (apply orders_in_bind; [apply orders_in_liftR|]; intros ?).
  destruct (negb (truthy _)); [apply orders_in_raise|].
  repeat (apply orders_in_bind; [apply orders_in_liftR|]; intros ?).
  destruct (negb (truthy _)); [apply orders_in_raise|].
  repeat (apply orders_in_bind; [apply orders_in_liftR|]; intros ?).
  apply orders_in_ret.
Qed.

(** The reads submit nothing. *)
Lemma orders_in_gather P symbol leverage :
  orders_in P (gather E Decimal_of symbol leverage).
Proof.
  unfold gather.
  apply orders_in_bind; [apply orders_in_invoke; discriminate|]. intros ?.
  apply orders_in_bind; [apply orders_in_fetch_account_data|]. intros ?.
  apply orders_in_bind; [apply orders_in_fetch_tick_and_step_size|]. intros ?.
  apply orders_in_bind; [apply orders_in_fetch_current_price|]. intros ?.
  apply orders_in_bind; [apply orders_in_liftD|]. intros ?.
  apply orders_in_ret.
Qed.

Lemma orders_in_submit symbol direction size price sl tp :
  orders_in (submitted symbol direction size price sl tp)
            (submit E symbol direction size price sl tp).
Proof.
  unfold submit.
  apply orders_in_bind; [apply orders_in_now|]. intros t0.
  apply orders_in_bind.
  { apply orders_in_api_call. intros kw Hkw. inversion Hkw.
    exists t0. left. reflexivity. }
  intros ?. apply orders_in_bind; [apply orders_in_emit; reflexivity|]. intros _.
  apply orders_in_bind; [apply orders_in_now|]. intros t1.
  apply orders_in_bind.
  { apply orders_in_api_call. intros kw Hkw. inversion Hkw.
    exists t1. right. left. reflexivity. }
  intros ?. apply orders_in_bind; [apply orders_in_emit; reflexivity|]. intros _.
  apply orders_in_bind; [apply orders_in_now|]. intros t2.
  apply orders_in_bind.
  { apply orders_in_api_call. intros kw Hkw. inversion Hkw.
    exists t2. right. right. reflexivity. }
  intros ?. apply orders_in_emit. reflexivity.
Qed.

End Run.

End TraceFacts.
Import TraceFacts.

(** ** Runs against two venues *)

Module SameFacts.

Section Same.

Context {W : Type}.

Lemma same_refl {A} (m : M W A) : same m m.
Proof. intros st. reflexivity. Qed.

Lemma same_bind {A B} (m1 m2 : M W A) (k1 k2 : A -> M W B) :
  same m1 m2 -> (forall a, same (k1 a) (k2 a)) -> same (bind m1 k1) (bind m2 k2).
Proof.
  intros Hm Hk st. unfold bind. rewrite (Hm st).
  destruct (m2 st) as [[a|e] st1]; [apply Hk|reflexivity].
Qed.

Lemma same_attempt (f1 f2 : M W pyval) :
  same f1 f2 -> same (attempt_call f1) (attempt_call f2).
Proof.
  intros Hf. unfold attempt_call. apply same_bind; [assumption|].
  intros a. apply same_refl.
Qed.

Lemma same_retry (f1 f2 : M W pyval) (l : list nat) :
  same f1 f2 -> same (retry_loop f1 l) (retry_loop f2 l).
Proof.
  intros Hf. induction l as [|attempt rest IH]; [apply same_refl|].
  intros st. cbn [retry_loop]. rewrite (same_attempt f1 f2 Hf st).
  destruct (attempt_call f2 st) as [[response|e] st1]; [reflexivity|].
  destruct (caught_by_retry e); [|reflexivity].
  unfold bind, emit. apply IH.
Qed.

Variables E1 E2 : env W.
Hypothesis Halike : alike E1 E2.

Lemma same_invoke c : c <> get_account_v3 -> same (invoke E1 c) (invoke E2 c).
Proof.
  intros Hc st. unfold invoke. destruct Halike as [Hcl _].
  rewrite (Hcl c (world st) Hc). reflexivity.
Qed.

Lemma same_now : same (now E1) (now E2).
Proof.
  intros st. unfold now. destruct Halike as (_ & Ht & _).
  rewrite (Ht (world st)). reflexivity.
Qed.

Lemma same_api_call c :
  c <> get_account_v3 ->
  same (api_call_with_retry (invoke E1 c)) (api_call_with_retry (invoke E2 c)).
Proof. intros Hc. apply same_retry, same_invoke, Hc. Qed.

Variable Decimal_of : pyval -> result Decimal.

Lemma same_fetch_account_data :
  same (fetch_account_data E1) (fetch_account_data E2).
Proof.
  unfold fetch_account_data. apply same_bind.
  - apply same_api_call. discriminate.
  - intros a. apply same_refl.
Qed.

Lemma same_fetch_tick_and_step_size symbol :
  same (fetch_tick_and_step_size E1 Decimal_of symbol)
       (fetch_tick_and_step_size E2 Decimal_of symbol).
Proof.
  unfold fetch_tick_and_step_size. apply same_bind.
  - apply same_api_call. discriminate.
  - intros a. apply same_refl.
Qed.

Lemma same_fetch_current_price symbol :
  same (fetch_current_price E1 Decimal_of symbol)
       (fetch_current_price E2 Decimal_of symbol).
Proof.
  unfold fetch_current_price. apply same_bind.
  - apply same_api_call. discriminate.
  - intros a. apply same_refl.
Qed.

Lemma same_submit symbol direction size price sl tp :
  same (submit E1 symbol direction size price sl tp)
       (submit E2 symbol direction size price sl tp).
Proof.
  unfold submit.
  apply same_bind; [apply same_now|]. intros t0.
  apply same_bind; [apply same_api_call; discriminate|]. intros ?.
  apply same_bind; [apply same_refl|]. intros _.
  apply same_bind; [apply same_now|]. intros t1.
  apply same_bind; [apply same_api_call; discriminate|]. intros ?.
  apply same_bind; [apply same_refl|]. intros _.
  apply same_bind; [apply same_now|]. intros t2.
  apply same_bind; [apply same_api_call; discriminate|]. intros ?.
  apply same_refl.
Qed.

(** The value of the first call is dropped. *)
Lemma same_after_account {A} (k1 k2 : M W A) :
  same k1 k2 ->
  same (bind (invoke E1 get_account_v3) (fun _ => k1))
       (bind (invoke E2 get_account_v3) (fun _ => k2)).
Proof.
  intros Hk st. unfold bind, invoke.
  destruct Halike as (_ & _ & Hacc).
  destruct (Hacc (world st)) as (v1 & v2 & w' & H1 & H2).
  rewrite H1, H2. apply Hk.
Qed.

Lemma same_gather symbol leverage :
  same (gather E1 Decimal_of symbol leverage)
       (gather E2 Decimal_of symbol leverage).
Proof.
  unfold gather. apply same_after_account.
  apply same_bind; [apply same_fetch_account_data|]. intros ?.
  apply same_bind; [apply same_fetch_tick_and_step_size|]. intros ?.
  apply same_bind; [apply same_fetch_current_price|]. intros ?.
  apply same_refl.
Qed.

Lemma same_place symbol direction leverage tp_percent sl_percent :
  same (place_optimal_limit_order E1 Decimal_of symbol direction
          leverage tp_percent sl_percent)
       (place_optimal_limit_order E2 Decimal_of symbol direction
          leverage tp_percent sl_percent).
Proof.
  unfold place_optimal_limit_order.
  apply same_bind; [apply same_gather|]. intros [[tick price] size].
  apply same_bind; [apply same_refl|]. intros prices.
  apply same_submit.
Qed.

End Same.

End SameFacts.
Import SameFacts.

(** ** The retry loop, attempt by attempt *)

Module RetryFacts.

Section Retry.

Context {W : Type}.
Variable E : env W.

Lemma attempt_transient c w t r w' :
  client E c w = (r, w') -> transient r = true ->
  attempt_call (invoke E c) (mkState w t) =
    (Err (cause r), mkState w' (t ++ [Called c])) /\
  caught_by_retry (cause r) = true.
Proof.
  intros Hc Hr. unfold attempt_call, bind, invoke. cbn [world trace].
  rewrite Hc. destruct r as [v|e].
  - destruct v; try discriminate. split; reflexivity.
  - split; [reflexivity|exact Hr].
Qed.

Lemma attempt_success c w t r w' :
  client E c w = (Ok r, w') -> r <> PNone ->
  attempt_call (invoke E c) (mkState w t) =
    (Ok r, mkState w' (t ++ [Called c])).
Proof.
  intros Hc Hr. unfold attempt_call, bind, invoke. cbn [world trace].
  rewrite Hc. destruct r; try reflexivity. contradiction.
Qed.

Lemma retry_loop_failed c w t r w' attempt rest :
  client E c w = (r, w') -> transient r = true ->
  retry_loop (invoke E c) (attempt :: rest) (mkState w t) =
  retry_loop (invoke E c) rest
    (mkState w' (t ++ failed_attempt c (cause r) attempt)).
Proof.
  intros Hc Hr. cbn [retry_loop].
  destruct (attempt_transient c w t r w' Hc Hr) as [Ha Hcaught].
  rewrite Ha, Hcaught. unfold bind, emit. cbn [world trace].
  unfold failed_attempt. rewrite <- !app_assoc. reflexivity.
Qed.

(** [k] transient outcomes use up [k] attempts. *)
Lemma retry_loop_failures c (k : nat) :
  forall i w t w1,
    fails_transiently E c k w = Some w1 ->
    exists tr,
      (forall n, retry_loop (invoke E c) (seq i (k + n)) (mkState w t) =
                 retry_loop (invoke E c) (seq (i + k) n) (mkState w1 (t ++ tr))) /\
      List.length (filter is_warning tr) = k /\
      List.length (filter is_call tr) = k /\
      sleeps tr = map backoff (seq i k).
Proof.
  induction k as [|k IH]; intros i w t w1 H.
  - inversion H. subst. exists []. rewrite app_nil_r, Nat.add_0_r.
    repeat split; reflexivity.
  - cbn [fails_transiently] in H.
    destruct (client E c w) as [r w'] eqn:Hc.
    destruct (transient r) eqn:Hr; [|discriminate].
    destruct (IH (S i) w' (t ++ failed_attempt c (cause r) i) w1 H)
      as (tr & Hrun & Hwarn & Hcall & Hsleep).
    exists (failed_attempt c (cause r) i ++ tr). repeat split.
    + intros n. cbn [Nat.add seq].
      rewrite (retry_loop_failed c w t r w' i _ Hc Hr), Hrun.
      rewrite <- app_assoc, Nat.add_succ_r. reflexivity.
    + cbn. rewrite Hwarn. reflexivity.
    + cbn. rewrite Hcall. reflexivity.
    + cbn. rewrite Hsleep. reflexivity.
Qed.

Lemma backoff_increasing (i : nat) : (backoff i < backoff (S i))%Q.
Proof.
  unfold backoff. rewrite !Qred_correct.
  apply Qmult_lt_l; [reflexivity|].
  rewrite <- Zlt_Qlt. apply Z.pow_lt_mono_r; lia.
Qed.

End Retry.

End RetryFacts.
Import RetryFacts.

(** ** The script *)

Module Claims.

Import Scenario.

(** C1, amended.  For a client call [c] wrapped by [api_call_with_retry]:
    if the venue answers it with [k < 5] transient outcomes (an exception of
    a caught class, or [None]) and then with a response, the wrapper returns
    that response after [k + 1] calls, having logged [k] warnings and slept
    [0.5 * 2^i] seconds after the failed attempt [i].  If the first five
    outcomes are all transient, the wrapper makes exactly five calls, logs
    five warnings, sleeps 0.5, 1, 2, 4 and 8 seconds (once after every
    failed attempt, the last one included) and raises the plain
    [Exception("Failed to execute API call after 5 attempts")], which holds
    the number of attempts and not the last cause.  The waiting times grow
    strictly. *)
Theorem api_call_with_retry_outcomes {W : Type} (E : env W) (c : call)
    (w : W) (t : list event) :
  (forall (k : nat) (w1 : W) (r : pyval) (w2 : W),
     (k < max_retries)%nat ->
     fails_transiently E c k w = Some w1 ->
     client E c w1 = (Ok r, w2) -> r <> PNone ->
     exists tr,
       api_call_with_retry (invoke E c) (mkState w t) =
         (Ok r, mkState w2 (t ++ tr)) /\
       List.length (filter is_warning tr) = k /\
       List.length (filter is_call tr) = S k /\
       sleeps tr = map backoff (seq 0 k)) /\
  (forall w1 : W,
     fails_transiently E c max_retries w = Some w1 ->
     exists tr,
       api_call_with_retry (invoke E c) (mkState w t) =
         (Err (Exception_ "Failed to execute API call after 5 attempts"),
          mkState w1 (t ++ tr)) /\
       List.length (filter is_call tr) = 5%nat /\
       List.length (filter is_warning tr) = 5%nat /\
       sleeps tr = [1 # 2; 1; 2; 4; 8]%Q) /\
  (forall i : nat, (backoff i < backoff (S i))%Q).
Proof.
  split; [|split].
  - intros k w1 r w2 Hk Hfail Hok Hr.
    destruct (retry_loop_failures E c k 0 w t w1 Hfail)
      as (tr & Hrun & Hwarn & Hcall & Hsleep).
    exists (tr ++ [Called c]). repeat split.
    + unfold api_call_with_retry.
      replace max_retries with (k + S (max_retries - S k))%nat by lia.
      rewrite Hrun. cbn [seq retry_loop].
      rewrite (attempt_success E c w1 (t ++ tr) r w2 Hok Hr).
      rewrite app_assoc. reflexivity.
    + rewrite filter_app, length_app, Hwarn. cbn. lia.
    + rewrite filter_app, length_app, Hcall. cbn. lia.
    + rewrite sleeps_app, Hsleep. cbn. apply app_nil_r.
  - intros w1 Hfail.
    destruct (retry_loop_failures E c max_retries 0 w t w1 Hfail)
      as (tr & Hrun & Hwarn & Hcall & Hsleep).
    exists tr. repeat split; try assumption.
    unfold api_call_with_retry.
    change max_retries with (max_retries + 0)%nat at 1.
    rewrite Hrun. reflexivity.
  - apply backoff_increasing.
Qed.

Lemma api_call_with_retry_outcomes_witness :
  (exists tr,
     api_call_with_retry (invoke (venue btc timeout) configs_v3) (start 2) =
       (Ok (answer btc configs_v3), mkState 0%nat ([] ++ tr)) /\
     List.length (filter is_warning tr) = 2%nat) /\
  (exists tr,
     api_call_with_retry (invoke (venue btc timeout) configs_v3) (start 5) =
       (Err (Exception_ "Failed to execute API call after 5 attempts"),
        mkState 0%nat ([] ++ tr)) /\
     sleeps tr = [1 # 2; 1; 2; 4; 8]%Q).
Proof.
  destruct (api_call_with_retry_outcomes (venue btc timeout) configs_v3 2%nat [])
    as [Hsome _].
  destruct (api_call_with_retry_outcomes (venue btc timeout) configs_v3 5%nat [])
    as [_ [Hall _]].
  split.
  - destruct (Hsome 2%nat 0%nat (answer btc configs_v3) 0%nat)
      as (tr & Hrun & Hwarn & _).
    + unfold max_retries. lia.
    + reflexivity.
    + reflexivity.
    + discriminate.
    + exists tr. split; assumption.
  - destruct (Hall 0%nat) as (tr & Hrun & _ & _ & Hsleep).
    + reflexivity.
    + exists tr. split; assumption.
Defined.

Lemma exhausted_retries_forget_cause :
  let run fault :=
    api_call_with_retry (invoke (venue btc fault) configs_v3) (start 5) in
  fst (run timeout) =
    Err (Exception_ "Failed to execute API call after 5 attempts") /\
  fst (run (Ok PNone)) = fst (run timeout) /\
  In (LogWarning (RequestException "timed out") 5 5) (trace (snd (run timeout))) /\
  In (LogWarning (ValueError "Empty response received") 5 5)
     (trace (snd (run (Ok PNone)))).
Proof.
  cbv zeta. repeat split; try reflexivity.
  - vm_compute. do 13 right. left. reflexivity.
  - vm_compute. do 13 right. left. reflexivity.
Qed.

(** C2, amended.  For [v >= 0] and [g > 0], whenever [(v // g) * g] is
    computed without the context rounding it (no Inexact), the result is the
    largest multiple of [g] not above [v]: it is at most [v], a multiple of
    [g], more than [v - g], and zero when [v < g].  That is the case for all
    operands that fit the precision ([fits]).  Outside of them the product
    is rounded to 28 digits and can leave the grid or exceed [v]. *)
Theorem quantize_largest_multiple (v g : Decimal) :
  (0 <= dval v)%Q -> (0 < dval g)%Q ->
  (fits v g -> exists r, quantize v g = Ok (r, false)) /\
  (forall r, quantize v g = Ok (r, false) ->
     (dval r <= dval v)%Q /\ multiple_of r g /\
     (dval v < dval r + dval g)%Q /\
     ((dval v < dval g)%Q -> (dval r == 0)%Q)).
Proof.
  intros Hv Hg. split.
  - intros Hfit. apply quantize_total; [|assumption].
    apply dval_pos_inv. assumption.
  - intros r H. destruct (quantize_value v g r Hg H) as (Hm & Hpos & _).
    destruct (Hpos Hv) as (_ & Hle & Hlt & Hsmall).
    split; [assumption|]. split; [assumption|]. split; assumption.
Qed.

Lemma quantize_largest_multiple_witness :
  exists r,
    quantize (of_int 20) (dec 1 (-3)) = Ok (r, false) /\
    (dval r <= dval (of_int 20))%Q /\ multiple_of r (dec 1 (-3)).
Proof.
  destruct (quantize_largest_multiple (of_int 20) (dec 1 (-3)))
    as [Hex Hprop].
  - qcalc.
  - qcalc.
  - destruct Hex as [r Hr].
    + unfold fits. split; [qcalc|]. split; qcalc.
    + exists r. split; [exact Hr|].
      destruct (Hprop r Hr) as (H1 & H2 & _). split; assumption.
Defined.

Lemma quantize_rounds_above :
  (0 <= dval (dec 13333333333333333333333333336 (-28)))%Q /\
  (0 < dval (dec 6666666666666666666666666668 (-28)))%Q /\
  quantize (dec 13333333333333333333333333336 (-28))
           (dec 6666666666666666666666666668 (-28)) =
    Ok (dec 1333333333333333333333333334 (-27), true) /\
  (dval (dec 13333333333333333333333333336 (-28)) <
   dval (dec 1333333333333333333333333334 (-27)))%Q.
Proof. repeat split; qcalc. Qed.

(** Signs and zeros along the sizing, whatever is rounded. *)







(** Rounding before the last product can lift the result above the exact
    quotient: the product of the margin and the leverage is rounded up to 1
    here, and the size is [1.000] for a quotient below 1. *)
Lemma position_size_above_quotient :
  calculate_position_size Decimal_of_plain
    (balance_response "0.0099999999999999999999999999999")
    (of_int 1) (of_int 1) (dec 1 (-3)) = Ok (dec 1000 (-3), true) /\
  (dval (dec 99999999999999999999999999999 (-31)) * (dval (of_int 1) * 100) /
     dval (of_int 1) < dval (dec 1000 (-3)))%Q.
Proof. split; qcalc. Qed.


(** C4, amended.  When [bracket_prices] returns without Inexact, for a tick
    [> 0]: a buy computes [price * (1 + tp/100)] and [price * (1 - sl/100)],
    a sell [price * (1 - tp/100)] and [price * (1 + sl/100)], and each of the
    two is then cut to a multiple of the tick toward zero: down for a raw
    price [>= 0], up for a negative one.  The buy with price 50000, 5 and 2
    per cent and tick 0.5 gives [52500.0] and [49000.0]. *)
Theorem bracket_prices_formulas :
  (forall d p tpp slp tick tp sl,
     (0 < dval tick)%Q ->
     bracket_prices d p tpp slp tick = Ok ((tp, sl), false) ->
     exists tp_raw sl_raw : Decimal,
       ((String.eqb (lower d) "buy" = true /\
         dval tp_raw == dval p * (1 + dval tpp / 100) /\
         dval sl_raw == dval p * (1 - dval slp / 100)) \/
        (String.eqb (lower d) "sell" = true /\
         dval tp_raw == dval p * (1 - dval tpp / 100) /\
         dval sl_raw == dval p * (1 + dval slp / 100)))%Q /\
       truncated tp tp_raw tick /\ truncated sl sl_raw tick) /\
  (exists tp sl,
     bracket_prices "buy" (of_int 50000) (of_int 5) (of_int 2) (dec 5 (-1)) =
       Ok ((tp, sl), false) /\
     str tp = "52500.0"%string /\ str sl = "49000.0"%string).
Proof.
  split.
  - intros d p tpp slp tick tp sl Htick H.
    destruct (String.eqb (lower d) "buy") eqn:Hb;
      [|destruct (String.eqb (lower d) "sell") eqn:Hs].
    + destruct (bracket_prices_buy _ _ _ _ _ _ _ Hb H)
        as (tpr & slr & Htp & Hsl & Hqt & Hqs).
      exists tpr, slr. split; [left; repeat split; assumption|].
      split; apply quantize_truncated; assumption.
    + destruct (bracket_prices_sell _ _ _ _ _ _ _ Hb Hs H)
        as (tpr & slr & Htp & Hsl & Hqt & Hqs).
      exists tpr, slr. split; [right; repeat split; assumption|].
      split; apply quantize_truncated; assumption.
    + rewrite (bracket_prices_refused _ _ _ _ _ Hb Hs) in H. discriminate.
  - exists (dec 525000 (-1)), (dec 490000 (-1)). repeat split; reflexivity.
Qed.

Lemma bracket_prices_formulas_witness :
  exists tp_raw sl_raw : Decimal,
    (dval tp_raw == dval (of_int 50000) * (1 + dval (of_int 5) / 100))%Q /\
    truncated (dec 525000 (-1)) tp_raw (dec 5 (-1)) /\
    truncated (dec 490000 (-1)) sl_raw (dec 5 (-1)).
Proof.
  destruct bracket_prices_formulas as [Hgen _].
  destruct (Hgen "buy"%string (of_int 50000) (of_int 5) (of_int 2) (dec 5 (-1))
              (dec 525000 (-1)) (dec 490000 (-1)))
    as (tpr & slr & Hcase & Htp & Hsl).
  - qcalc.
  - reflexivity.
  - exists tpr, slr. destruct Hcase as [(_ & H1 & _)|(Hs & _)];
      [|discriminate].
    split; [exact H1|]. split; assumption.
Defined.

Lemma stop_quantized_toward_zero :
  bracket_prices "buy" (of_int 50001) (of_int 5) (of_int 150) (of_int 1) =
    Ok ((of_int 52501, of_int (-25000)), false) /\
  (sl_frac <- ddiv (of_int 150) (of_int 100) ;;
   sl_factor <- dsub (of_int 1) sl_frac ;;
   dmul (of_int 50001) sl_factor)%dec = Ok (mkDec true 250005 (-1), false) /\
  (dval (mkDec true 250005 (-1)) < dval (of_int (-25000)))%Q.
Proof. repeat split; qcalc. Qed.




(** A price on the grid is not passed downward by the floor multiple. *)
Lemma floor_keeps_grid (r x p g : Decimal) :
  (0 < dval g)%Q -> multiple_of r g -> multiple_of p g ->
  (dval p <= dval x)%Q -> (dval x < dval r + dval g)%Q ->
  (dval p <= dval r)%Q.
Proof.
  intros Hg [k Hk] [m Hm] Hpx Hxr.
  assert (Hlt : (inject_Z m * dval g < inject_Z (k + 1) * dval g)%Q).
  { rewrite inject_Z_plus. rewrite <- Hm.
    setoid_replace ((inject_Z k + inject_Z 1) * dval g)%Q
      with (dval r + dval g)%Q by (rewrite Hk; ring).
    eapply Qle_lt_trans; eassumption. }
  apply Qmult_lt_r in Hlt; [|assumption].
  rewrite <- Zlt_Qlt in Hlt.
  assert (Hle : (inject_Z m <= inject_Z k)%Q) by (rewrite <- Zle_Qle; lia).
  rewrite Hm, Hk. apply Qmult_le_compat_r; [assumption|].
  apply Qlt_le_weak. assumption.
Qed.

(** A raw price below the current one stays below; one above it stays
    within a tick. *)
Lemma truncated_below (r x p g : Decimal) :
  (0 < dval p)%Q -> (0 < dval g)%Q -> truncated r x g ->
  (dval x < dval p)%Q -> (dval r < dval p)%Q.
Proof.
  intros Hp Hg (_ & Hpos & Hneg) Hx.
  destruct (Qlt_le_dec (dval x) 0) as [Hlt|Hge].
  - destruct (Hneg (Qlt_le_weak _ _ Hlt)) as (Hr & _). lra.
  - destruct (Hpos Hge) as (_ & Hle & _). lra.
Qed.

Lemma truncated_above (r x p g : Decimal) :
  (0 < dval p)%Q -> (0 < dval g)%Q -> truncated r x g ->
  (dval p < dval x)%Q ->
  (dval p - dval g < dval r)%Q /\ (multiple_of p g -> (dval p <= dval r)%Q).
Proof.
  intros Hp Hg (Hm & Hpos & _) Hx.
  assert (Hx0 : (0 <= dval x)%Q) by lra.
  destruct (Hpos Hx0) as (_ & Hle & Hlt). split; [lra|].
  intros Hgrid. apply (floor_keeps_grid r x p g); try assumption. lra.
Qed.

Lemma raised (p c : Q) : (0 < p)%Q -> (0 < c)%Q -> (p < p * (1 + c / 100))%Q.
Proof.
  intros Hp Hc. pose proof (Qmult_lt_0_compat _ _ Hp Hc) as H.
  setoid_replace (p * (1 + c / 100))%Q with (p + (p * c) * (1 # 100))%Q
    by (unfold Qdiv; change (/ 100)%Q with (1 # 100)%Q; ring).
  set (pc := (p * c)%Q) in *. lra.
Qed.

Lemma lowered (p c : Q) : (0 < p)%Q -> (0 < c)%Q -> (p * (1 - c / 100) < p)%Q.
Proof.
  intros Hp Hc. pose proof (Qmult_lt_0_compat _ _ Hp Hc) as H.
  setoid_replace (p * (1 - c / 100))%Q with (p - (p * c) * (1 # 100))%Q
    by (unfold Qdiv; change (/ 100)%Q with (1 # 100)%Q; ring).
  set (pc := (p * c)%Q) in *. lra.
Qed.

(** C6, amended.  With price, percentages and tick [> 0], when
    [bracket_prices] returns without Inexact: for a buy the stop is strictly
    below the price, and the take-profit is above [price - tick], and not
    below the price if the price is itself a multiple of the tick; for a
    sell the take-profit is strictly below the price and the stop is above
    [price - tick], not below the price if the price is on the grid.  The
    leg above the price can be cut down to the price itself. *)
Theorem bracket_prices_ordering (d : string) (p tpp slp tick tp sl : Decimal) :
  (0 < dval p)%Q -> (0 < dval tpp)%Q -> (0 < dval slp)%Q -> (0 < dval tick)%Q ->
  bracket_prices d p tpp slp tick = Ok ((tp, sl), false) ->
  (String.eqb (lower d) "buy" = true ->
     (dval sl < dval p)%Q /\ (dval p - dval tick < dval tp)%Q /\
     (multiple_of p tick -> (dval p <= dval tp)%Q)) /\
  (String.eqb (lower d) "buy" = false ->
     (dval tp < dval p)%Q /\ (dval p - dval tick < dval sl)%Q /\
     (multiple_of p tick -> (dval p <= dval sl)%Q)).
Proof.
  intros Hp Htpp Hslp Htick H. split; intros Hb.
  - destruct (bracket_prices_buy _ _ _ _ _ _ _ Hb H)
      as (tpr & slr & Htp & Hsl & Hqt & Hqs).
    apply quantize_truncated in Hqt, Hqs; try assumption.
    pose proof (raised _ _ Hp Htpp) as Hup. rewrite <- Htp in Hup.
    pose proof (lowered _ _ Hp Hslp) as Hdown. rewrite <- Hsl in Hdown.
    split; [exact (truncated_below _ _ _ _ Hp Htick Hqs Hdown)|].
    exact (truncated_above _ _ _ _ Hp Htick Hqt Hup).
  - destruct (String.eqb (lower d) "sell") eqn:Hs.
    2: { rewrite (bracket_prices_refused _ _ _ _ _ Hb Hs) in H. discriminate. }
    destruct (bracket_prices_sell _ _ _ _ _ _ _ Hb Hs H)
      as (tpr & slr & Htp & Hsl & Hqt & Hqs).
    apply quantize_truncated in Hqt, Hqs; try assumption.
    pose proof (lowered _ _ Hp Htpp) as Hdown. rewrite <- Htp in Hdown.
    pose proof (raised _ _ Hp Hslp) as Hup. rewrite <- Hsl in Hup.
    split; [exact (truncated_below _ _ _ _ Hp Htick Hqt Hdown)|].
    exact (truncated_above _ _ _ _ Hp Htick Hqs Hup).
Qed.

Lemma bracket_prices_ordering_witness :
  (dval (dec 490000 (-1)) < dval (of_int 50000))%Q /\
  (dval (of_int 50000) - dval (dec 5 (-1)) < dval (dec 525000 (-1)))%Q.
Proof.
  destruct (bracket_prices_ordering "buy" (of_int 50000) (of_int 5) (of_int 2)
              (dec 5 (-1)) (dec 525000 (-1)) (dec 490000 (-1)))
    as [Hbuy _]; try qcalc.
  destruct Hbuy as (H1 & H2 & _); [reflexivity|]. split; assumption.
Defined.

Lemma take_profit_at_price :
  (0 < dval (dec 1 (-1)))%Q /\
  bracket_prices "buy" (of_int 100) (dec 1 (-1)) (of_int 1) (of_int 1) =
    Ok ((of_int 100, of_int 99), false) /\
  ~ (dval (of_int 100) < dval (of_int 100))%Q.
Proof. repeat split; qcalc. Qed.

(** Letter case. *)




Section Pipeline.

Context {W : Type}.
Variable E : env W.
Variable Decimal_of : pyval -> result Decimal.

Lemma place_after_gather symbol d lev tpp slp st tick price size st1 :
  gather E Decimal_of symbol lev st = (Ok (tick, price, size), st1) ->
  place_optimal_limit_order E Decimal_of symbol d lev tpp slp st =
  match bracket_prices d price tpp slp tick with
  | Ok (prices, _) =>
      submit E symbol d size price (snd prices) (fst prices) st1
  | Err e => (Err e, st1)
  end.
Proof.
  intros Hg. unfold place_optimal_limit_order, bind. rewrite Hg.
  unfold liftD. destruct (bracket_prices d price tpp slp tick) as [[prices f]|e];
    reflexivity.
Qed.

Lemma place_gather_failed symbol d lev tpp slp st e st1 :
  gather E Decimal_of symbol lev st = (Err e, st1) ->
  place_optimal_limit_order E Decimal_of symbol d lev tpp slp st = (Err e, st1).
Proof.
  intros Hg. unfold place_optimal_limit_order, bind. rewrite Hg. reflexivity.
Qed.


End Pipeline.




(** C8, amended.  When [place_optimal_limit_order] raises [e] in a run of
    the script with five well-formed arguments: if [e] is an [Exception] the
    script logs it as its last action and runs to its end, so the process
    ends with status 0; otherwise [e] leaves the script uncaught. *)
Theorem main_logs_and_finishes {W : Type} (E : env W)
    (Decimal_of : pyval -> result Decimal)
    (argv0 symbol direction a3 a4 a5 : string)
    (leverage tp_percent sl_percent : Decimal)
    (st : state W) (e : exn) (st2 : state W) :
  Decimal_of (PStr a3) = Ok leverage ->
  Decimal_of (PStr a4) = Ok tp_percent ->
  Decimal_of (PStr a5) = Ok sl_percent ->
  place_optimal_limit_order E Decimal_of symbol direction
    leverage tp_percent sl_percent
    (logged symbol direction leverage tp_percent sl_percent st) = (Err e, st2) ->
  main E Decimal_of [argv0; symbol; direction; a3; a4; a5] st =
    (if is_Exception e
     then (Finished, mkState (world st2) (trace st2 ++ [LogError e]))
     else (Uncaught e, st2)) /\
  (is_Exception e = true ->
   exit_status (fst (main E Decimal_of
                       [argv0; symbol; direction; a3; a4; a5] st)) = Some 0).
Proof.
  intros H3 H4 H5 Hrun.
  assert (Hmain :
    main E Decimal_of [argv0; symbol; direction; a3; a4; a5] st =
    (if is_Exception e
     then (Finished, mkState (world st2) (trace st2 ++ [LogError e]))
     else (Uncaught e, st2))).
  { unfold main. rewrite H3, H4, H5. unfold logged in Hrun. rewrite Hrun.
    reflexivity. }
  split; [exact Hmain|].
  intros He. rewrite Hmain, He. reflexivity.
Qed.

Lemma main_logs_and_finishes_witness :
  main (venue btc timeout) Decimal_of_plain argv (start 1) =
    (Finished,
     mkState 0%nat
       [LogArguments "BTC-USDT" "buy" (of_int 10) (of_int 5) (of_int 2);
        Called get_account_v3; LogError (RequestException "timed out")]) /\
  exit_status (fst (main (venue btc timeout) Decimal_of_plain argv (start 1))) =
    Some 0.
Proof.
  destruct (main_logs_and_finishes (venue btc timeout) Decimal_of_plain
              "alpha_entry.py" "BTC-USDT" "buy" "10" "5" "2"
              (of_int 10) (of_int 5) (of_int 2) (start 1)
              (RequestException "timed out")
              (mkState 0%nat
                 [LogArguments "BTC-USDT" "buy" (of_int 10) (of_int 5) (of_int 2);
                  Called get_account_v3]))
    as [Hmain Hexit]; try (vm_compute; reflexivity).
  split; [exact Hmain|]. apply Hexit. reflexivity.
Defined.

Lemma failure_exits_zero :
  fst (place_optimal_limit_order (venue btc timeout) Decimal_of_plain
         "BTC-USDT" "buy" (of_int 10) (of_int 5) (of_int 2)
         (logged "BTC-USDT" "buy" (of_int 10) (of_int 5) (of_int 2) (start 1))) =
    Err (RequestException "timed out") /\
  fst (main (venue btc timeout) Decimal_of_plain argv (start 1)) = Finished /\
  exit_status (fst (main (venue btc timeout) Decimal_of_plain argv (start 1))) =
    Some 0.
Proof. repeat split; vm_compute; reflexivity. Qed.

(** C9.  Two venues that answer every call alike, except for the value
    that [get_account_v3] returns, cannot be told apart by
    [place_optimal_limit_order]: from the same state the reads give the same
    tick, price and position size, and the two runs end with the same
    result, the same world and the same trace, hence the same orders. *)
Theorem account_value_unused {W : Type} (E1 E2 : env W)
    (Decimal_of : pyval -> result Decimal)
    (symbol direction : string) (leverage tp_percent sl_percent : Decimal)
    (st : state W) :
  alike E1 E2 ->
  gather E1 Decimal_of symbol leverage st =
    gather E2 Decimal_of symbol leverage st /\
  place_optimal_limit_order E1 Decimal_of symbol direction
    leverage tp_percent sl_percent st =
  place_optimal_limit_order E2 Decimal_of symbol direction
    leverage tp_percent sl_percent st.
Proof.
  intros Halike. split.
  - apply same_gather. assumption.
  - apply same_place. assumption.
Qed.

Lemma alike_venues : alike (venue btc (Ok PNone)) (venue btc_other_account (Ok PNone)).
Proof.
  split; [|split].
  - intros c w Hc. destruct w; [|reflexivity].
    destruct c; try reflexivity. contradiction.
  - intros w. reflexivity.
  - intros w. destruct w as [|w'].
    + exists (m_account btc), (m_account btc_other_account), 0%nat.
      split; reflexivity.
    + exists PNone, PNone, w'. split; reflexivity.
Defined.

Lemma account_value_unused_witness :
  m_account btc <> m_account btc_other_account /\
  place_optimal_limit_order (venue btc (Ok PNone)) Decimal_of_plain
    "BTC-USDT" "buy" (of_int 10) (of_int 5) (of_int 2) (start 0) =
  place_optimal_limit_order (venue btc_other_account (Ok PNone)) Decimal_of_plain
    "BTC-USDT" "buy" (of_int 10) (of_int 5) (of_int 2) (start 0).
Proof.
  split; [discriminate|].
  apply (account_value_unused (venue btc (Ok PNone))
           (venue btc_other_account (Ok PNone))).
  exact alike_venues.
Defined.




End Claims.

(** ** Further properties of the script *)

Module Extras.

Import Scenario.
Import Claims.

Section Retry.

Context {W : Type}.
Variable E : env W.

Lemma attempt_fatal c w t e w' attempt rest :
  client E c w = (Err e, w') -> caught_by_retry e = false ->
  retry_loop (invoke E c) (attempt :: rest) (mkState w t) =
    (Err e, mkState w' (t ++ [Called c])).
Proof.
  intros Hc He. cbn [retry_loop]. unfold attempt_call, bind, invoke.
  cbn [world trace]. rewrite Hc, He. reflexivity.
Qed.

(** The calls of [k] failed attempts. *)
Lemma retry_loop_failures_calls c (k : nat) :
  forall i w t w1,
    fails_transiently E c k w = Some w1 ->
    exists tr,
      (forall n, retry_loop (invoke E c) (seq i (k + n)) (mkState w t) =
                 retry_loop (invoke E c) (seq (i + k) n) (mkState w1 (t ++ tr))) /\
      filter is_call tr = repeat (Called c) k /\
      List.length (filter is_warning tr) = k /\
      sleeps tr = map backoff (seq i k).
Proof.
  induction k as [|k IH]; intros i w t w1 H.
  - inversion H. subst. exists []. rewrite app_nil_r, Nat.add_0_r.
    repeat split; reflexivity.
  - cbn [fails_transiently] in H.
    destruct (client E c w) as [r w'] eqn:Hc.
    destruct (transient r) eqn:Hr; [|discriminate].
    destruct (IH (S i) w' (t ++ failed_attempt c (cause r) i) w1 H)
      as (tr & Hrun & Hcall & Hwarn & Hsleep).
    exists (failed_attempt c (cause r) i ++ tr). repeat split.
    + intros n. cbn [Nat.add seq].
      rewrite (retry_loop_failed E c w t r w' i _ Hc Hr), Hrun.
      rewrite <- app_assoc, Nat.add_succ_r. reflexivity.
    + cbn. rewrite Hcall. reflexivity.
    + cbn. rewrite Hwarn. reflexivity.
    + cbn. rewrite Hsleep. reflexivity.
Qed.

End Retry.

Lemma orders_of_calls (t : list event) : orders (filter is_call t) = orders t.
Proof.
  induction t as [|ev t IH]; [reflexivity|].
  destruct ev as [c| | | | | |]; cbn [filter is_call orders]; try exact IH.
  destruct c; cbn [orders]; rewrite IH; reflexivity.
Qed.

Lemma orders_repeat (kw : order_kwargs) (n : nat) :
  orders (repeat (Called (create_order_v3 kw)) n) = repeat kw n.
Proof. induction n as [|n IH]; [reflexivity|]. cbn. rewrite IH. reflexivity. Qed.

(** X1.  An exception that is neither a [RequestException] nor a
    [ValueError] is not retried: when a wrapped call has [k < 5] transient
    outcomes and then raises such an exception, [api_call_with_retry] raises
    that same exception at once, after [k + 1] calls, [k] warnings and [k]
    waits. *)
Theorem api_call_with_retry_gives_up_on_other_errors {W : Type} (E : env W)
    (c : call) (k : nat) (w w1 : W) (t : list event) (e : exn) (w2 : W) :
  (k < max_retries)%nat ->
  fails_transiently E c k w = Some w1 ->
  client E c w1 = (Err e, w2) -> caught_by_retry e = false ->
  exists tr,
    api_call_with_retry (invoke E c) (mkState w t) =
      (Err e, mkState w2 (t ++ tr)) /\
    filter is_call tr = repeat (Called c) (S k) /\
    List.length (filter is_warning tr) = k /\
    sleeps tr = map backoff (seq 0 k).
Proof.
  intros Hk Hfail Hc He.
  destruct (retry_loop_failures_calls E c k 0 w t w1 Hfail)
    as (tr & Hrun & Hcall & Hwarn & Hsleep).
  exists (tr ++ [Called c]). repeat split.
  - unfold api_call_with_retry.
    replace max_retries with (k + S (max_retries - S k))%nat by lia.
    rewrite Hrun. cbn [seq].
    rewrite (attempt_fatal E c w1 (t ++ tr) e w2 _ _ Hc He).
    rewrite app_assoc. reflexivity.
  - rewrite filter_app, Hcall. cbn [filter is_call].
    change [Called c] with (repeat (Called c) 1).
    rewrite <- repeat_app. f_equal. lia.
  - rewrite filter_app, length_app, Hwarn. cbn. lia.
  - rewrite sleeps_app, Hsleep. cbn. apply app_nil_r.
Qed.

Lemma api_call_with_retry_gives_up_on_other_errors_witness :
  exists tr,
    api_call_with_retry (invoke (venue btc (Err (KeyError "symbol"))) configs_v3)
      (start 3) = (Err (KeyError "symbol"), mkState 2%nat ([] ++ tr)) /\
    filter is_call tr = [Called configs_v3].
Proof.
  destruct (api_call_with_retry_gives_up_on_other_errors
              (venue btc (Err (KeyError "symbol"))) configs_v3 0%nat 3%nat 3%nat []
              (KeyError "symbol") 2%nat)
    as (tr & Hrun & Hcall & _).
  - unfold max_retries. lia.
  - reflexivity.
  - reflexivity.
  - reflexivity.
  - exists tr. split; assumption.
Defined.

(** X3.  A submission that fails transiently is sent again unchanged: when
    [create_order_v3] has [k < 5] transient outcomes and then answers, the
    venue has received [k + 1] requests with the same keyword arguments, time
    stamp included. *)
Theorem api_call_with_retry_resubmits {W : Type} (E : env W)
    (kw : order_kwargs) (k : nat) (w w1 : W) (t : list event)
    (r : pyval) (w2 : W) :
  (k < max_retries)%nat ->
  fails_transiently E (create_order_v3 kw) k w = Some w1 ->
  client E (create_order_v3 kw) w1 = (Ok r, w2) -> r <> PNone ->
  exists tr,
    api_call_with_retry (invoke E (create_order_v3 kw)) (mkState w t) =
      (Ok r, mkState w2 (t ++ tr)) /\
    orders tr = repeat kw (S k).
Proof.
  intros Hk Hfail Hc Hr.
  destruct (retry_loop_failures_calls E (create_order_v3 kw) k 0 w t w1 Hfail)
    as (tr & Hrun & Hcall & _).
  exists (tr ++ [Called (create_order_v3 kw)]). split.
  - unfold api_call_with_retry.
    replace max_retries with (k + S (max_retries - S k))%nat by lia.
    rewrite Hrun. cbn [seq retry_loop].
    rewrite (attempt_success E _ w1 (t ++ tr) r w2 Hc Hr).
    rewrite app_assoc. reflexivity.
  - rewrite orders_app, <- (orders_of_calls tr), Hcall, orders_repeat.
    cbn [orders]. change [kw] with (repeat kw 1).
    rewrite <- repeat_app. f_equal. lia.
Qed.

Lemma api_call_with_retry_resubmits_witness :
  exists tr,
    api_call_with_retry
      (invoke (venue btc timeout)
         (create_order_v3
            (entry_order "BTC-USDT" "buy" (dec 20000 (-3)) (of_int 50000) 1700000000)))
      (start 2) = (Ok order_response, mkState 0%nat ([] ++ tr)) /\
    orders tr =
      repeat (entry_order "BTC-USDT" "buy" (dec 20000 (-3)) (of_int 50000) 1700000000) 3.
Proof.
  apply (api_call_with_retry_resubmits (venue btc timeout) _ 2%nat 2%nat 0%nat []
           order_response 0%nat).
  - unfold max_retries. lia.
  - reflexivity.
  - reflexivity.
  - discriminate.
Defined.

(** A run of the loop over the attempts [i, i+1, ..., i+n-1]. *)
Lemma retry_loop_bounded {W : Type} (E : env W) (c : call) (n : nat) :
  forall i st,
    exists tr k,
      trace (snd (retry_loop (invoke E c) (seq i n) st)) = trace st ++ tr /\
      (k <= n)%nat /\
      sleeps tr = map backoff (seq i k) /\
      List.length (filter is_warning tr) = k /\
      (exists m, filter is_call tr = repeat (Called c) m /\
                 (m <= n)%nat /\ (k <= m <= S k)%nat).
Proof.
  induction n as [|n IH]; intros i st.
  - exists [], 0%nat. cbn. rewrite app_nil_r. repeat split; try lia.
    exists 0%nat. repeat split; lia.
  - cbn [seq retry_loop]. unfold attempt_call, bind, invoke.
    destruct (client E c (world st)) as [r w] eqn:Hc.
    assert (Hone : exists m, filter is_call [Called c] = repeat (Called c) m /\
                             (m <= S n)%nat /\ (0 <= m <= 1)%nat).
    { exists 1%nat. repeat split; lia. }
    assert (Hstop : forall (x : result pyval),
              exists tr k,
                trace (snd (x, mkState w (trace st ++ [Called c]))) = trace st ++ tr /\
                (k <= S n)%nat /\ sleeps tr = map backoff (seq i k) /\
                List.length (filter is_warning tr) = k /\
                (exists m, filter is_call tr = repeat (Called c) m /\
                           (m <= S n)%nat /\ (k <= m <= S k)%nat)).
    { intros x. exists [Called c], 0%nat. repeat split; try lia. exact Hone. }
    assert (Hnext : forall e,
              exists tr k,
                trace (snd (retry_loop (invoke E c) (seq (S i) n)
                         (mkState w (((trace st ++ [Called c]) ++
                            [LogWarning e (i + 1) max_retries]) ++
                            [Sleep (backoff i)])))) = trace st ++ tr /\
                (k <= S n)%nat /\ sleeps tr = map backoff (seq i k) /\
                List.length (filter is_warning tr) = k /\
                (exists m, filter is_call tr = repeat (Called c) m /\
                           (m <= S n)%nat /\ (k <= m <= S k)%nat)).
    { intros e.
      destruct (IH (S i) (mkState w (((trace st ++ [Called c]) ++
                            [LogWarning e (i + 1) max_retries]) ++
                            [Sleep (backoff i)])))
        as (tr & k & Htr & Hk & Hsl & Hw & m & Hm & Hmn & Hkm).
      exists (failed_attempt c e i ++ tr), (S k). repeat split.
      - rewrite Htr. cbn [trace]. unfold failed_attempt.
        rewrite <- !app_assoc. reflexivity.
      - lia.
      - cbn. rewrite Hsl. reflexivity.
      - cbn. rewrite Hw. reflexivity.
      - exists (S m). cbn. rewrite Hm. repeat split; lia. }
    destruct r as [v|e].
    + destruct v; cbn [world trace]; first [apply Hstop | apply Hnext].
    + cbn [world trace]. destruct (caught_by_retry e);
        first [apply Hnext | apply Hstop].
Qed.

Lemma backoff_total (k : nat) :
  (k <= 5)%nat -> (total (map backoff (seq 0 k)) <= 31 # 2)%Q.
Proof.
  intros Hk.
  destruct k as [|[|[|[|[|[|k]]]]]]; try (vm_compute; discriminate). lia.
Qed.

(** X2.  Whatever the venue does, one wrapped call makes at most five
    calls, all of them the same call; it logs one warning per wait, waits
    [0.5 * 2^i] seconds after the failed attempt [i], makes as many calls as
    waits or one more, and waits no more than 15.5 seconds in all. *)
Theorem api_call_with_retry_bounded {W : Type} (E : env W) (c : call)
    (st : state W) :
  exists tr calls waits,
    trace (snd (api_call_with_retry (invoke E c) st)) = trace st ++ tr /\
    filter is_call tr = repeat (Called c) calls /\ (calls <= 5)%nat /\
    sleeps tr = map backoff (seq 0 waits) /\
    List.length (filter is_warning tr) = waits /\
    (waits <= calls <= S waits)%nat /\
    (total (sleeps tr) <= 31 # 2)%Q.
Proof.
  destruct (retry_loop_bounded E c max_retries 0%nat st)
    as (tr & k & Htr & Hk & Hsl & Hw & m & Hm & Hmn & Hkm).
  exists tr, m, k. unfold max_retries in *. repeat split; try assumption; try lia.
  rewrite Hsl. apply backoff_total. assumption.
Qed.

Section Pipeline.

Context {W : Type}.
Variable E : env W.
Variable Decimal_of : pyval -> result Decimal.


End Pipeline.

(** X4.  The first call of [place_optimal_limit_order], [get_account_v3],
    is made outside the retry wrapper: any exception it raises, a transient
    one included, ends the run after that single call, with that
    exception. *)
Theorem first_account_call_not_retried {W : Type} (E : env W)
    (Decimal_of : pyval -> result Decimal)
    (symbol direction : string) (leverage tp_percent sl_percent : Decimal)
    (st : state W) (e : exn) (w' : W) :
  client E get_account_v3 (world st) = (Err e, w') ->
  place_optimal_limit_order E Decimal_of symbol direction
    leverage tp_percent sl_percent st =
    (Err e, mkState w' (trace st ++ [Called get_account_v3])).
Proof.
  intros Hc. apply place_gather_failed.
  unfold gather, bind, invoke. rewrite Hc. reflexivity.
Qed.

Lemma first_account_call_not_retried_witness :
  caught_by_retry (RequestException "timed out") = true /\
  place_optimal_limit_order (venue btc timeout) Decimal_of_plain
    "BTC-USDT" "buy" (of_int 10) (of_int 5) (of_int 2) (start 1) =
    (Err (RequestException "timed out"),
     mkState 0%nat ([] ++ [Called get_account_v3])).
Proof.
  split; [reflexivity|].
  apply (first_account_call_not_retried (venue btc timeout) Decimal_of_plain
           "BTC-USDT" "buy" (of_int 10) (of_int 5) (of_int 2) (start 1)).
  reflexivity.
Defined.

(** X5.  No order is submitted unless the reads, the sizing and the
    bracket prices all succeeded: when one of them raises, the run raises
    the same exception and its trace holds no order. *)
Theorem no_order_before_prices {W : Type} (E : env W)
    (Decimal_of : pyval -> result Decimal)
    (symbol direction : string) (leverage tp_percent sl_percent : Decimal)
    (st : state W) :
  (forall e st1,
     gather E Decimal_of symbol leverage st = (Err e, st1) ->
     place_optimal_limit_order E Decimal_of symbol direction
       leverage tp_percent sl_percent st = (Err e, st1) /\
     extends no_order st st1) /\
  (forall tick price size st1 e,
     gather E Decimal_of symbol leverage st = (Ok (tick, price, size), st1) ->
     bracket_prices direction price tp_percent sl_percent tick = Err e ->
     place_optimal_limit_order E Decimal_of symbol direction
       leverage tp_percent sl_percent st = (Err e, st1) /\
     extends no_order st st1).
Proof.
  split.
  - intros e st1 Hg. split; [apply place_gather_failed; assumption|].
    exact (orders_in_gather E Decimal_of no_order symbol leverage _ _ _ Hg).
  - intros tick price size st1 e Hg Hb. split.
    + rewrite (place_after_gather E Decimal_of _ _ _ _ _ _ _ _ _ _ Hg), Hb.
      reflexivity.
    + exact (orders_in_gather E Decimal_of no_order symbol leverage _ _ _ Hg).
Qed.

Lemma no_order_before_prices_witness :
  place_optimal_limit_order
    (venue (mkMarket (PDict []) "1000" "0.5" "0.001" "0") timeout)
    Decimal_of_plain "BTC-USDT" "buy" (of_int 10) (of_int 5) (of_int 2) (start 0) =
    (Err (DecimalException DivisionByZero),
     mkState 0%nat
       [Called get_account_v3; Called get_account_balance_v3;
        Called configs_v3; Called (ticker_v3 "BTC-USDT")]) /\
  extends no_order (start 0)
    (mkState 0%nat
       [Called get_account_v3; Called get_account_balance_v3;
        Called configs_v3; Called (ticker_v3 "BTC-USDT")]).
Proof.
  destruct (no_order_before_prices
              (venue (mkMarket (PDict []) "1000" "0.5" "0.001" "0") timeout)
              Decimal_of_plain "BTC-USDT" "buy" (of_int 10) (of_int 5) (of_int 2)
              (start 0)) as [Hreads _].
  apply Hreads. vm_compute. reflexivity.
Defined.

(** X6.  The stop-loss and the take-profit are submitted only after the
    entry was answered: when the wrapped submission of the entry raises,
    [submit] raises the same exception, and every order of the run is the
    entry order. *)
Theorem no_bracket_without_entry {W : Type} (E : env W)
    (symbol direction : string) (size price sl tp : Decimal)
    (st : state W) (t0 : Z) (w0 : W) (e : exn) (st1 : state W) :
  time_time E (world st) = (t0, w0) ->
  api_call_with_retry
    (invoke E (create_order_v3 (entry_order symbol direction size price t0)))
    (mkState w0 (trace st)) = (Err e, st1) ->
  submit E symbol direction size price sl tp st = (Err e, st1) /\
  extends (fun kw => kw = entry_order symbol direction size price t0) st st1.
Proof.
  intros Ht Hrun. split.
  - unfold submit, bind, now. rewrite Ht, Hrun. reflexivity.
  - pose proof (orders_in_api_call E
                  (fun kw => kw = entry_order symbol direction size price t0)
                  (create_order_v3 (entry_order symbol direction size price t0)))
      as Hin.
    apply (Hin ltac:(intros kw Hkw; inversion Hkw; reflexivity) _ _ _ Hrun).
Qed.

Lemma no_bracket_without_entry_witness :
  exists st1,
    submit (venue btc timeout) "BTC-USDT" "buy" (dec 20000 (-3)) (of_int 50000)
      (dec 490000 (-1)) (dec 525000 (-1)) (start 5) =
      (Err (Exception_ "Failed to execute API call after 5 attempts"), st1) /\
    extends (fun kw => kw = entry_order "BTC-USDT" "buy" (dec 20000 (-3))
                            (of_int 50000) 1700000000) (start 5) st1.
Proof.
  eexists.
  apply (no_bracket_without_entry (venue btc timeout) "BTC-USDT" "buy"
           (dec 20000 (-3)) (of_int 50000) (dec 490000 (-1)) (dec 525000 (-1))
           (start 5) 1700000000 5%nat).
  - reflexivity.
  - vm_compute. reflexivity.
Defined.




Lemma submitted_protective symbol direction size price sl tp kw :
  submitted symbol direction size price sl tp kw -> protective direction kw.
Proof.
  intros [t [H|[H|H]]]; subst kw; unfold protective;
    cbn [entry_order bracket_order o_type o_side o_reduceOnly o_isPositionTpsl
         o_triggerPriceType o_timeInForce]; intros Hty.
  - contradiction Hty. reflexivity.
  - repeat split.
  - repeat split.
Qed.

(** X8.  Every order of a run other than the [MARKET] entry is on the side
    opposite to the entry's, is reduce-only, is flagged as a position
    take-profit or stop-loss, is triggered by the index price and is good
    till cancelled. *)
Theorem bracket_orders_reduce_only {W : Type} (E : env W)
    (Decimal_of : pyval -> result Decimal)
    (symbol direction : string) (leverage tp_percent sl_percent : Decimal) :
  orders_in (protective direction)
    (place_optimal_limit_order E Decimal_of symbol direction
       leverage tp_percent sl_percent).
Proof.
  unfold place_optimal_limit_order.
  apply orders_in_bind; [apply orders_in_gather|].
  intros [[tick price] size].
  apply orders_in_bind; [apply orders_in_liftD|]. intros prices.
  eapply orders_in_weaken; [|apply orders_in_submit].
  intros kw. apply submitted_protective.
Qed.

Lemma find_symbol_first symbol pre item post :
  Forall (other_symbol symbol) pre ->
  getitem item "symbol" = Ok (PStr symbol) ->
  find_symbol symbol (pre ++ item :: post) = Ok item.
Proof.
  intros Hpre Hitem. induction Hpre as [|x pre [v [Hx Hv]] _ IH].
  - cbn [app find_symbol]. rewrite Hitem. cbn [eq_str].
    rewrite String.eqb_refl. reflexivity.
  - cbn [app find_symbol]. rewrite Hx, Hv. exact IH.
Qed.

Lemma find_symbol_none symbol l :
  Forall (other_symbol symbol) l -> find_symbol symbol l = Ok PNone.
Proof.
  intros Hl. induction Hl as [|x l [v [Hx Hv]] _ IH]; [reflexivity|].
  cbn [find_symbol]. rewrite Hx, Hv. exact IH.
Qed.

Lemma find_symbol_malformed symbol pre item post e :
  Forall (other_symbol symbol) pre ->
  getitem item "symbol" = Err e ->
  find_symbol symbol (pre ++ item :: post) = Err e.
Proof.
  intros Hpre Hitem. induction Hpre as [|x pre [v [Hx Hv]] _ IH].
  - cbn [app find_symbol]. rewrite Hitem. reflexivity.
  - cbn [app find_symbol]. rewrite Hx, Hv. exact IH.
Qed.

Lemma truthy_with_key item k v : getitem item k = Ok v -> truthy item = true.
Proof.
  destruct item; try discriminate. cbn [getitem].
  destruct d as [|kv d]; [discriminate|reflexivity].
Qed.

Section Reads.

Context {W : Type}.
Variable E : env W.
Variable Decimal_of : pyval -> result Decimal.

Lemma api_call_first c st r w' :
  client E c (world st) = (Ok r, w') -> r <> PNone ->
  api_call_with_retry (invoke E c) st =
    (Ok r, mkState w' (trace st ++ [Called c])).
Proof.
  intros Hc Hr. destruct st as [w t]. unfold api_call_with_retry, max_retries.
  cbn [seq retry_loop]. cbn [world] in Hc.
  rewrite (attempt_success E c w t r w' Hc Hr). reflexivity.
Qed.

(** The look-up of [fetch_tick_and_step_size], after the response came. *)
Lemma fetch_tick_and_step_size_lookup symbol st response w' l :
  client E configs_v3 (world st) = (Ok response, w') ->
  configs_with l response ->
  fetch_tick_and_step_size E Decimal_of symbol st =
    (if negb (truthy l) then
       raise (Exception_ "No perpetual contracts found under contractConfig.")
     else
       bind (liftR (items l)) (fun contracts =>
       bind (liftR (find_symbol symbol contracts)) (fun symbol_data =>
       if negb (truthy symbol_data) then
         raise (Exception_ ("Symbol data not found for " ++ symbol))
       else
         bind (liftR (getitem symbol_data "tickSize")) (fun tickSize =>
         bind (liftR (Decimal_of tickSize)) (fun tick_size =>
         bind (liftR (getitem symbol_data "stepSize")) (fun stepSize =>
         bind (liftR (Decimal_of stepSize)) (fun step_size =>
         ret (tick_size, step_size))))))))
      (mkState w' (trace st ++ [Called configs_v3])).
Proof.
  intros Hc (d & dd & cc & -> & Hd & Hdd & Hcc).
  unfold fetch_tick_and_step_size. unfold bind at 1.
  rewrite (api_call_first configs_v3 st (PDict d) w' Hc ltac:(discriminate)).
  unfold bind at 1. unfold liftR at 1. cbn [contains]. rewrite Hd. cbn [negb].
  unfold bind at 1. unfold liftR at 1. cbn [get]. rewrite Hd.
  unfold bind at 1. unfold liftR at 1. cbn [get]. rewrite Hdd.
  unfold bind at 1. unfold liftR at 1. cbn [get]. rewrite Hcc.
  reflexivity.
Qed.

End Reads.

(** X9.  [fetch_tick_and_step_size] takes the tick and the step of the
    first entry of the contract list whose symbol is the wanted one; the
    entries after it, further entries for the same symbol included, are not
    looked at. *)
Theorem fetch_tick_and_step_size_first_match {W : Type} (E : env W)
    (Decimal_of : pyval -> result Decimal) (symbol : string) (st : state W)
    (response : pyval) (w' : W) (pre post : list pyval) (item : pyval)
    (tickSize stepSize : pyval) (tick_size step_size : Decimal) :
  client E configs_v3 (world st) = (Ok response, w') ->
  configs_with (PList (pre ++ item :: post)) response ->
  Forall (other_symbol symbol) pre ->
  getitem item "symbol" = Ok (PStr symbol) ->
  getitem item "tickSize" = Ok tickSize -> Decimal_of tickSize = Ok tick_size ->
  getitem item "stepSize" = Ok stepSize -> Decimal_of stepSize = Ok step_size ->
  fetch_tick_and_step_size E Decimal_of symbol st =
    (Ok (tick_size, step_size), mkState w' (trace st ++ [Called configs_v3])).
Proof.
  intros Hc Hresp Hpre Hsym Htk Htick Hsp Hstep.
  rewrite (fetch_tick_and_step_size_lookup E Decimal_of symbol st _ _ _ Hc Hresp).
  assert (Hl : truthy (PList (pre ++ item :: post)) = true)
    by (destruct pre; reflexivity).
  rewrite Hl. cbn [negb]. unfold bind, liftR. cbn [items].
  rewrite (find_symbol_first symbol pre item post Hpre Hsym).
  rewrite (truthy_with_key _ _ _ Hsym). cbn [negb].
  rewrite Htk, Htick, Hsp, Hstep. reflexivity.
Qed.

Lemma fetch_tick_and_step_size_first_match_witness :
  fetch_tick_and_step_size
    (mkEnv (fun c w =>
              (Ok (PDict [("data", PDict [("contractConfig",
                 PDict [("perpetualContract",
                   PList [PDict [("symbol", PStr "ETH-USDT");
                                 ("tickSize", PStr "0.01");
                                 ("stepSize", PStr "0.01")];
                          PDict [("symbol", PStr "BTC-USDT");
                                 ("tickSize", PStr "0.5");
                                 ("stepSize", PStr "0.001")];
                          PDict [("symbol", PStr "BTC-USDT");
                                 ("tickSize", PStr "1");
                                 ("stepSize", PStr "1")]])])])]%string), w))
           (fun w => (0, w)))
    Decimal_of_plain "BTC-USDT" (start 0) =
    (Ok (dec 5 (-1), dec 1 (-3)), mkState 0%nat ([] ++ [Called configs_v3])).
Proof.
  eapply (fetch_tick_and_step_size_first_match _ Decimal_of_plain "BTC-USDT"
            (start 0) _ 0%nat
            [PDict [("symbol", PStr "ETH-USDT"); ("tickSize", PStr "0.01");
                    ("stepSize", PStr "0.01")]%string]
            [PDict [("symbol", PStr "BTC-USDT"); ("tickSize", PStr "1");
                    ("stepSize", PStr "1")]%string]
            (PDict [("symbol", PStr "BTC-USDT"); ("tickSize", PStr "0.5");
                    ("stepSize", PStr "0.001")]%string)
            (PStr "0.5") (PStr "0.001")).
  - reflexivity.
  - eexists _, _, _. repeat split; reflexivity.
  - constructor; [|constructor]. exists (PStr "ETH-USDT"). split; reflexivity.
  - reflexivity.
  - reflexivity.
  - reflexivity.
  - reflexivity.
  - reflexivity.
Defined.

(** X10.  When no entry of the contract list is for the wanted symbol,
    [fetch_tick_and_step_size] raises, after its single call,
    [Exception("Symbol data not found for <symbol>")], and for an empty list
    [Exception("No perpetual contracts found under contractConfig.")]. *)
Theorem fetch_tick_and_step_size_not_found {W : Type} (E : env W)
    (Decimal_of : pyval -> result Decimal) (symbol : string) (st : state W)
    (response : pyval) (w' : W) (l : list pyval) :
  client E configs_v3 (world st) = (Ok response, w') ->
  configs_with (PList l) response ->
  Forall (other_symbol symbol) l ->
  fetch_tick_and_step_size E Decimal_of symbol st =
    (Err (Exception_
            (match l with
             | [] => "No perpetual contracts found under contractConfig."
             | _ :: _ => "Symbol data not found for " ++ symbol
             end)),
     mkState w' (trace st ++ [Called configs_v3])).
Proof.
  intros Hc Hresp Hl.
  rewrite (fetch_tick_and_step_size_lookup E Decimal_of symbol st _ _ _ Hc Hresp).
  destruct l as [|x l]; [reflexivity|].
  cbn [truthy negb]. unfold bind, liftR. cbn [items].
  rewrite (find_symbol_none symbol _ Hl). reflexivity.
Qed.

Lemma fetch_tick_and_step_size_not_found_witness :
  fetch_tick_and_step_size (venue btc timeout) Decimal_of_plain "ETH-USDT"
    (start 0) =
    (Err (Exception_ "Symbol data not found for ETH-USDT"),
     mkState 0%nat ([] ++ [Called configs_v3])).
Proof.
  apply (fetch_tick_and_step_size_not_found (venue btc timeout) Decimal_of_plain
           "ETH-USDT" (start 0) (answer btc configs_v3) 0%nat
           [PDict [("symbol", PStr "BTC-USDT"); ("tickSize", PStr "0.5");
                   ("stepSize", PStr "0.001")]%string]).
  - reflexivity.
  - eexists _, _, _. repeat split; reflexivity.
  - constructor; [|constructor]. exists (PStr "BTC-USDT"). split; reflexivity.
Defined.

(** X11.  [fetch_current_price] reads the last price of the first entry of
    the ticker's list only; on an empty list it raises [IndexError].  The
    response is fetched with a single call: an ill-formed response is not
    fetched again. *)
Theorem fetch_current_price_first_entry {W : Type} (E : env W)
    (Decimal_of : pyval -> result Decimal) (symbol : string) (st : state W)
    (d : list (string * pyval)) (w' : W) (l : list pyval) :
  client E (ticker_v3 symbol) (world st) = (Ok (PDict d), w') ->
  lookup "data" d = Some (PList l) ->
  fetch_current_price E Decimal_of symbol st =
    (match l with
     | [] => Err IndexError
     | first :: _ =>
         match getitem first "lastPrice" with
         | Ok lastPrice => Decimal_of lastPrice
         | Err e => Err e
         end
     end,
     mkState w' (trace st ++ [Called (ticker_v3 symbol)])).
Proof.
  intros Hc Hd. unfold fetch_current_price. unfold bind at 1.
  rewrite (api_call_first E (ticker_v3 symbol) st (PDict d) w' Hc
             ltac:(discriminate)).
  unfold bind, liftR. cbn [getitem]. rewrite Hd. cbn [getitem0].
  destruct l as [|first rest]; [reflexivity|].
  destruct (getitem first "lastPrice"); reflexivity.
Qed.

Lemma fetch_current_price_first_entry_witness :
  fetch_current_price
    (mkEnv (fun c w => (Ok (PDict [("data", PList [])]%string), w))
           (fun w => (0, w)))
    Decimal_of_plain "BTC-USDT" (start 0) =
    (Err IndexError, mkState 0%nat ([] ++ [Called (ticker_v3 "BTC-USDT")])).
Proof.
  apply (fetch_current_price_first_entry _ Decimal_of_plain "BTC-USDT" (start 0)
           [("data", PList [])]%string 0%nat []); reflexivity.
Defined.

(** X12.  With a number of arguments other than five the script prints its
    usage line and exits with status 1 without any call to the venue.  With
    five arguments of which the leverage, the take-profit or the stop-loss
    percentage is not a number, the constructor's exception leaves the
    script uncaught, before anything is logged and before any call. *)
Theorem main_argument_errors {W : Type} (E : env W)
    (Decimal_of : pyval -> result Decimal) (st : state W) :
  (forall argv,
     List.length argv <> 6%nat ->
     main E Decimal_of argv st =
       (SysExit 1, mkState (world st) (trace st ++ [Print usage]))) /\
  (forall argv0 symbol direction a3 a4 a5 e,
     (Decimal_of (PStr a3) = Err e \/
      (exists leverage, Decimal_of (PStr a3) = Ok leverage) /\
      (Decimal_of (PStr a4) = Err e \/
       (exists tp_percent, Decimal_of (PStr a4) = Ok tp_percent) /\
       Decimal_of (PStr a5) = Err e)) ->
     main E Decimal_of [argv0; symbol; direction; a3; a4; a5] st =
       (Uncaught e, st)).
Proof.
  split.
  - intros argv Hlen.
    destruct argv as [|x0 [|x1 [|x2 [|x3 [|x4 [|x5 [|x6 rest]]]]]]];
      try reflexivity.
    contradiction Hlen. reflexivity.
  - intros argv0 symbol direction a3 a4 a5 e H. unfold main.
    destruct H as [H3|[[lev H3] [H4|[[tp H4] H5]]]].
    + rewrite H3. reflexivity.
    + rewrite H3, H4. reflexivity.
    + rewrite H3, H4, H5. reflexivity.
Qed.

Lemma main_argument_errors_witness :
  main (venue btc timeout) Decimal_of_plain ["alpha_entry.py"; "BTC-USDT"]%string
    (start 0) = (SysExit 1, mkState 0%nat ([] ++ [Print usage])) /\
  main (venue btc timeout) Decimal_of_plain
    ["alpha_entry.py"; "BTC-USDT"; "buy"; "10"; "five"; "2"]%string (start 0) =
    (Uncaught (DecimalException InvalidOperation), start 0).
Proof.
  destruct (main_argument_errors (venue btc timeout) Decimal_of_plain (start 0))
    as [Hcount Hnum].
  split.
  - apply Hcount. cbn. lia.
  - apply Hnum. right. split; [exists (of_int 10); reflexivity|].
    left. reflexivity.
Defined.

Lemma dfloordiv_shape a b qd f :
  dfloordiv a b = Ok (qd, f) ->
  let e := Z.min (dexp a) (dexp b) in
  let q := (dcoef a * 10 ^ (dexp a - e)) / (dcoef b * 10 ^ (dexp b - e)) in
  dcoef b <> 0 /\ q < 10 ^ prec /\ f = false /\
  qd = mkDec (xorb (dsign a) (dsign b)) (Z.to_N q) 0.
Proof.
  intros H e q. unfold dfloordiv in H. fold e in H. fold q in H.
  destruct (dcoef b =? 0) eqn:Hb.
  { destruct (dcoef a =? 0); discriminate. }
  apply Z.eqb_neq in Hb.
  destruct (q <? 10 ^ prec) eqn:Hq; [|discriminate].
  apply Z.ltb_lt in Hq. inversion H. repeat split; assumption.
Qed.

Lemma xorb_cancel (s t : bool) : xorb (xorb (xorb s t) t) t = xorb s t.
Proof. destruct s, t; reflexivity. Qed.

(** X13.  Quantizing twice is quantizing once: when [(x // g) * g] is
    computed without Inexact, applying [(_ // g) * g] to the result returns
    the very same decimal. *)
Theorem quantize_idempotent (x g r : Decimal) :
  quantize x g = Ok (r, false) -> quantize r g = Ok (r, false).
Proof.
  intros H. unfold quantize in H.
  apply dbind_ok in H. destruct H as [qd [Hq Hm]].
  pose proof (dfloordiv_shape _ _ _ _ Hq) as Hshape. cbv zeta in Hshape.
  destruct Hshape as (Hg & Hlt & _ & Hqd).
  set (q := dcoef x * 10 ^ (dexp x - Z.min (dexp x) (dexp g)) /
            (dcoef g * 10 ^ (dexp g - Z.min (dexp x) (dexp g)))) in *.
  assert (Hq0 : 0 <= q).
  { pose proof (coef_nonneg x). pose proof (coef_nonneg g).
    pose proof (pow10_pos (dexp x - Z.min (dexp x) (dexp g)) ltac:(lia)).
    pose proof (pow10_pos (dexp g - Z.min (dexp x) (dexp g)) ltac:(lia)).
    apply Z.div_pos; nia. }
  pose proof (dmul_sign _ _ _ _ Hm) as Hsr.
  pose proof Hm as Hval. unfold dmul in Hval.
  apply fix_exact in Hval;
    [|pose proof (coef_nonneg qd); pose proof (coef_nonneg g); nia].
  assert (Hcq : dcoef qd = q).
  { rewrite Hqd, dcoef_mk. apply Z2N.id. assumption. }
  assert (Heq : dexp qd = 0) by (rewrite Hqd; reflexivity).
  rewrite Hcq, Heq in Hval.
  replace (0 + dexp g) with (dexp g) in Hval by lia.
  set (e' := Z.min (dexp r) (dexp g)).
  set (A := dcoef r * 10 ^ (dexp r - e')).
  set (B := dcoef g * 10 ^ (dexp g - e')).
  assert (HmA : (inject_Z A * 10 ^ e' == mag r)%Q)
    by (apply coef_scale; unfold e'; lia).
  assert (HmB : (inject_Z B * 10 ^ e' == mag g)%Q)
    by (apply coef_scale; unfold e'; lia).
  assert (HB : 0 < B).
  { pose proof (coef_nonneg g).
    pose proof (pow10_pos (dexp g - e') ltac:(unfold e'; lia)). unfold B. nia. }
  assert (HAB : A = q * B).
  { apply inject_Z_injective.
    apply Qmult_inj_r with (z := (10 ^ e')%Q).
    - intros Hz. pose proof (p10_pos e') as Hp. rewrite Hz in Hp. discriminate.
    - transitivity (inject_Z q * mag g)%Q.
      + rewrite HmA, Hval, inject_Z_mult. unfold mag. ring.
      + rewrite inject_Z_mult, <- Qmult_assoc, HmB. reflexivity. }
  unfold quantize, dfloordiv. fold e'. fold A. fold B.
  replace (dcoef g =? 0) with false by (symmetry; apply Z.eqb_neq; assumption).
  rewrite HAB, Z.div_mul by lia.
  replace (q <? 10 ^ prec) with true by (symmetry; apply Z.ltb_lt; assumption).
  rewrite Hsr, Hqd. cbn [dsign]. rewrite xorb_cancel.
  unfold dbind. rewrite <- Hqd, Hm. reflexivity.
Qed.

Lemma quantize_idempotent_witness :
  quantize (dec 20000 (-3)) (dec 1 (-3)) = Ok (dec 20000 (-3), false).
Proof.
  apply (quantize_idempotent (of_int 20) (dec 1 (-3)) (dec 20000 (-3))).
  reflexivity.
Defined.

(** X14.  A value that is already a multiple of the grain [g > 0] is kept
    by [(x // g) * g], when that is computed without Inexact. *)
Theorem quantize_keeps_grid (x g r : Decimal) :
  (0 < dval g)%Q -> multiple_of x g ->
  quantize x g = Ok (r, false) -> (dval r == dval x)%Q.
Proof.
  intros Hg [m Hm] H.
  destruct (quantize_trunc x g r Hg H) as (Hs & q & Hq0 & Hr & Hle & Hlt & _).
  pose proof (dval_mag x) as Hvx. pose proof (dval_mag r) as Hvr.
  rewrite Hs in Hvr.
  set (m' := if dsign x then (- m)%Z else m).
  assert (Hmx : (mag x == inject_Z m' * dval g)%Q).
  { unfold m'. destruct (dsign x).
    - rewrite inject_Z_opp.
      setoid_replace (mag x) with (- dval x)%Q by (rewrite Hvx; ring).
      rewrite Hm. ring.
    - rewrite <- Hvx. exact Hm. }
  assert (Hqm : q = m').
  { rewrite Hr, Hmx in Hle. rewrite Hmx, Hr in Hlt.
    apply Qmult_le_r in Hle; [|assumption]. rewrite <- Zle_Qle in Hle.
    setoid_replace (inject_Z q * dval g + dval g)%Q
      with (inject_Z (q + 1) * dval g)%Q in Hlt
      by (rewrite inject_Z_plus; ring).
    apply Qmult_lt_r in Hlt; [|assumption]. rewrite <- Zlt_Qlt in Hlt. lia. }
  assert (Hmag : (mag r == mag x)%Q) by (rewrite Hr, Hmx, Hqm; reflexivity).
  rewrite Hvr, Hvx. destruct (dsign x); rewrite Hmag; reflexivity.
Qed.

Lemma quantize_keeps_grid_witness :
  (dval (dec 490000 (-1)) == dval (dec 4900000 (-2)))%Q.
Proof.
  apply (quantize_keeps_grid (dec 4900000 (-2)) (dec 5 (-1)) (dec 490000 (-1))).
  - qcalc.
  - exists 98000. qcalc.
  - reflexivity.
Defined.

(** X15.  [(x // g) * g] is monotone on the values [>= 0]: for [g > 0] and
    [0 <= x <= y], computed without Inexact, the result for [x] is not above
    the result for [y]. *)
Theorem quantize_monotone (x y g rx ry : Decimal) :
  (0 < dval g)%Q -> (0 <= dval x)%Q -> (dval x <= dval y)%Q ->
  quantize x g = Ok (rx, false) -> quantize y g = Ok (ry, false) ->
  (dval rx <= dval ry)%Q.
Proof.
  intros Hg Hx Hxy Hqx Hqy.
  destruct (quantize_value x g rx Hg Hqx) as (Hmx & Hposx & _).
  destruct (quantize_value y g ry Hg Hqy) as (Hmy & Hposy & _).
  destruct (Hposx Hx) as (_ & Hlex & _).
  assert (Hy : (0 <= dval y)%Q) by (eapply Qle_trans; eassumption).
  destruct (Hposy Hy) as (_ & _ & Hlty & _).
  apply (floor_keeps_grid ry y rx g); try assumption.
  eapply Qle_trans; eassumption.
Qed.

Lemma quantize_monotone_witness :
  (dval (dec 20000 (-3)) <= dval (dec 20001 (-3)))%Q.
Proof.
  apply (quantize_monotone (dec 200009 (-4)) (dec 200019 (-4)) (dec 1 (-3))
           (dec 20000 (-3)) (dec 20001 (-3))); try qcalc; reflexivity.
Defined.

(** The errors of the arithmetic are decimal signals. *)

Lemma fix_err s c e x : _fix s c e = Err x -> exists sg, x = DecimalException sg.
Proof.
  unfold _fix. destruct (c =? 0); [discriminate|].
  destruct (Etop <? ndigits c + e - prec).
  { intros H. inversion H. eexists. reflexivity. }
  destruct (e <? Z.max (ndigits c + e - prec) Etiny); [|discriminate].
  cbv zeta.
  match goal with |- context [let '(_, _) := ?p in _] => destruct p end.
  destruct (Etop <? _); [|discriminate].
  intros H. inversion H. eexists. reflexivity.
Qed.

Lemma dmul_err a b x : dmul a b = Err x -> exists sg, x = DecimalException sg.
Proof. apply fix_err. Qed.

Lemma ddiv_err a b x : ddiv a b = Err x -> exists sg, x = DecimalException sg.
Proof.
  unfold ddiv. destruct (dcoef b =? 0).
  { destruct (dcoef a =? 0); intros H; inversion H; eexists; reflexivity. }
  destruct (dcoef a =? 0); [apply fix_err|]. cbv zeta.
  destruct (_ mod _ =? 0); [|apply fix_err].
  destruct (strip_zeros _ _ _). apply fix_err.
Qed.

Lemma dfloordiv_err a b x :
  dfloordiv a b = Err x -> exists sg, x = DecimalException sg.
Proof.
  unfold dfloordiv. destruct (dcoef b =? 0).
  { destruct (dcoef a =? 0); intros H; inversion H; eexists; reflexivity. }
  cbv zeta. destruct (_ <? _); [discriminate|].
  intros H; inversion H; eexists; reflexivity.
Qed.

Lemma dbind_err {A B} (m : D A) (k : A -> D B) x :
  dbind m k = Err x ->
  m = Err x \/ exists a f, m = Ok (a, f) /\ k a = Err x.
Proof.
  unfold dbind. destruct m as [[a f]|e].
  - destruct (k a) as [[b g]|e] eqn:Hk; [discriminate|].
    intros H. inversion H. subst. right. exists a, f. split; [reflexivity|assumption].
  - intros H. inversion H. left. reflexivity.
Qed.

Lemma quantize_err x g e :
  quantize x g = Err e -> exists sg, e = DecimalException sg.
Proof.
  intros H. unfold quantize in H. apply dbind_err in H.
  destruct H as [H|(q & f & _ & H)];
    [exact (dfloordiv_err _ _ _ H)|exact (dmul_err _ _ _ H)].
Qed.

Lemma getitem_err v k e :
  getitem v k = Err e -> e = KeyError k \/ e = TypeError.
Proof.
  destruct v; cbn [getitem]; intros H; try (inversion H; right; reflexivity).
  destruct (lookup k d); [discriminate|]. inversion H. left. reflexivity.
Qed.

Lemma pureD_err {A} (r : result A) e : pureD r = Err e -> r = Err e.
Proof. destruct r; simpl; intros H; inversion H; reflexivity. Qed.

Lemma pureD_ok_any {A} (r : result A) a f : pureD r = Ok (a, f) -> r = Ok a.
Proof. destruct r; simpl; intros H; inversion H; reflexivity. Qed.

(** X16.  [calculate_position_size] can fail in these ways only: with
    [KeyError('data')], [KeyError('availableBalance')] or [TypeError] from
    the look-up of the balance, with what the [Decimal] constructor raises on
    the balance, or with a signal of the decimal context. *)
Theorem calculate_position_size_failures
    (Decimal_of : pyval -> result Decimal)
    (account_data : pyval) (leverage current_price step_size : Decimal)
    (e : exn) :
  calculate_position_size Decimal_of account_data leverage current_price
    step_size = Err e ->
  e = KeyError "data" \/ e = KeyError "availableBalance" \/ e = TypeError \/
  (exists data balance,
     getitem account_data "data" = Ok data /\
     getitem data "availableBalance" = Ok balance /\
     Decimal_of balance = Err e) \/
  (exists sg, e = DecimalException sg).
Proof.
  intros H. unfold calculate_position_size in H.
  apply dbind_err in H. destruct H as [H|(data & ? & Hdata & H)].
  { apply pureD_err, getitem_err in H. tauto. }
  apply dbind_err in H. destruct H as [H|(balance & ? & Hbal & H)].
  { apply pureD_err, getitem_err in H. tauto. }
  apply dbind_err in H. destruct H as [H|(margin & ? & Hmar & H)].
  { apply pureD_err in H. apply pureD_ok_any in Hdata, Hbal.
    right. right. right. left. exists data, balance. repeat split; assumption. }
  right. right. right. right.
  apply dbind_err in H. destruct H as [H|(rl & ? & _ & H)].
  { exact (dmul_err _ _ _ H). }
  apply dbind_err in H. destruct H as [H|(prod & ? & _ & H)].
  { exact (dmul_err _ _ _ H). }
  apply dbind_err in H. destruct H as [H|(raw & ? & _ & H)].
  { exact (ddiv_err _ _ _ H). }
  exact (quantize_err _ _ _ H).
Qed.

Lemma calculate_position_size_failures_witness :
  KeyError "availableBalance" = KeyError "data" \/
  KeyError "availableBalance" = KeyError "availableBalance" \/
  KeyError "availableBalance" = TypeError \/
  (exists data balance,
     getitem (PDict [("data", PDict [])]%string) "data" = Ok data /\
     getitem data "availableBalance" = Ok balance /\
     Decimal_of_plain balance = Err (KeyError "availableBalance")) \/
  (exists sg, KeyError "availableBalance" = DecimalException sg).
Proof.
  apply (calculate_position_size_failures Decimal_of_plain
           (PDict [("data", PDict [])]%string) (of_int 10) (of_int 50000)
           (dec 1 (-3))).
  reflexivity.
Defined.

(** X17.  An entry of the contract list without a [symbol] key (or that is
    not a dict) that comes before the wanted entry makes
    [fetch_tick_and_step_size] raise [KeyError('symbol')] (or [TypeError]),
    although the wanted entry is in the list. *)
Theorem fetch_tick_and_step_size_malformed_entry {W : Type} (E : env W)
    (Decimal_of : pyval -> result Decimal) (symbol : string) (st : state W)
    (response : pyval) (w' : W) (pre post : list pyval) (item : pyval)
    (e : exn) :
  client E configs_v3 (world st) = (Ok response, w') ->
  configs_with (PList (pre ++ item :: post)) response ->
  Forall (other_symbol symbol) pre ->
  getitem item "symbol" = Err e ->
  fetch_tick_and_step_size E Decimal_of symbol st =
    (Err e, mkState w' (trace st ++ [Called configs_v3])) /\
  (e = KeyError "symbol" \/ e = TypeError).
Proof.
  intros Hc Hresp Hpre Hitem. split; [|exact (getitem_err _ _ _ Hitem)].
  rewrite (fetch_tick_and_step_size_lookup E Decimal_of symbol st _ _ _ Hc Hresp).
  assert (Hl : truthy (PList (pre ++ item :: post)) = true)
    by (destruct pre; reflexivity).
  rewrite Hl. cbn [negb]. unfold bind, liftR. cbn [items].
  rewrite (find_symbol_malformed symbol pre item post e Hpre Hitem).
  reflexivity.
Qed.

Lemma fetch_tick_and_step_size_malformed_entry_witness :
  fetch_tick_and_step_size
    (mkEnv (fun c w =>
              (Ok (PDict [("data", PDict [("contractConfig",
                 PDict [("perpetualContract",
                   PList [PDict [("name", PStr "ETH-USDT")];
                          PDict [("symbol", PStr "BTC-USDT");
                                 ("tickSize", PStr "0.5");
                                 ("stepSize", PStr "0.001")]])])])]%string), w))
           (fun w => (0, w)))
    Decimal_of_plain "BTC-USDT" (start 0) =
    (Err (KeyError "symbol"), mkState 0%nat ([] ++ [Called configs_v3])).
Proof.
  destruct (fetch_tick_and_step_size_malformed_entry
              (mkEnv (fun (c : call) (w : nat) =>
                 (Ok (PDict [("data", PDict [("contractConfig",
                    PDict [("perpetualContract",
                      PList [PDict [("name", PStr "ETH-USDT")];
                             PDict [("symbol", PStr "BTC-USDT");
                                    ("tickSize", PStr "0.5");
                                    ("stepSize", PStr "0.001")]])])])]%string), w))
                 (fun w => (0, w)))
              Decimal_of_plain "BTC-USDT" (start 0)
              (PDict [("data", PDict [("contractConfig",
                    PDict [("perpetualContract",
                      PList [PDict [("name", PStr "ETH-USDT")];
                             PDict [("symbol", PStr "BTC-USDT");
                                    ("tickSize", PStr "0.5");
                                    ("stepSize", PStr "0.001")]])])])]%string)
              0%nat []
              [PDict [("symbol", PStr "BTC-USDT"); ("tickSize", PStr "0.5");
                      ("stepSize", PStr "0.001")]%string]
              (PDict [("name", PStr "ETH-USDT")]%string)
              (KeyError "symbol")) as [Hrun _].
  - reflexivity.
  - eexists _, _, _. repeat split; reflexivity.
  - constructor.
  - reflexivity.
  - exact Hrun.
Defined.

(** X18.  When the configuration has its [data] but no [contractConfig],
    or no [perpetualContract] under it, the defaults of [.get] make
    [fetch_tick_and_step_size] raise
    [Exception("No perpetual contracts found under contractConfig.")]. *)
Theorem fetch_tick_and_step_size_missing_keys {W : Type} (E : env W)
    (Decimal_of : pyval -> result Decimal) (symbol : string) (st : state W)
    (d dd : list (string * pyval)) (w' : W) :
  client E configs_v3 (world st) = (Ok (PDict d), w') ->
  lookup "data" d = Some (PDict dd) ->
  (lookup "contractConfig" dd = None \/
   exists cc, lookup "contractConfig" dd = Some (PDict cc) /\
              lookup "perpetualContract" cc = None) ->
  fetch_tick_and_step_size E Decimal_of symbol st =
    (Err (Exception_ "No perpetual contracts found under contractConfig."),
     mkState w' (trace st ++ [Called configs_v3])).
Proof.
  intros Hc Hd Hmiss.
  unfold fetch_tick_and_step_size. unfold bind at 1.
  rewrite (api_call_first E configs_v3 st (PDict d) w' Hc ltac:(discriminate)).
  unfold bind at 1. unfold liftR at 1. cbn [contains]. rewrite Hd. cbn [negb].
  unfold bind at 1. unfold liftR at 1. cbn [get]. rewrite Hd.
  unfold bind at 1. unfold liftR at 1. cbn [get].
  destruct Hmiss as [Hcc|(cc & Hcc & Hpc)]; rewrite Hcc.
  - reflexivity.
  - unfold bind at 1. unfold liftR at 1. cbn [get]. rewrite Hpc. reflexivity.
Qed.

Lemma fetch_tick_and_step_size_missing_keys_witness :
  fetch_tick_and_step_size
    (mkEnv (fun c w => (Ok (PDict [("data", PDict [])]%string), w))
           (fun w => (0, w)))
    Decimal_of_plain "BTC-USDT" (start 0) =
    (Err (Exception_ "No perpetual contracts found under contractConfig."),
     mkState 0%nat ([] ++ [Called configs_v3])).
Proof.
  apply (fetch_tick_and_step_size_missing_keys _ Decimal_of_plain "BTC-USDT"
           (start 0) [("data", PDict [])]%string [] 0%nat).
  - reflexivity.
  - reflexivity.
  - left. reflexivity.
Defined.

Lemma lower_sell : lower "sell" = "sell"%string.
Proof. reflexivity. Qed.

(** X19.  A sell bracket is the buy bracket with the two percentages
    exchanged and the two legs exchanged: [bracket_prices] returns [(x, y)]
    for a sell with take-profit [a] and stop [b] exactly when it returns
    [(y, x)] for a buy with take-profit [b] and stop [a], with the same
    Inexact flag. *)
Theorem bracket_prices_mirror (p a b tick x y : Decimal) (f : bool) :
  bracket_prices "sell" p a b tick = Ok ((x, y), f) <->
  bracket_prices "buy" p b a tick = Ok ((y, x), f).
Proof.
  unfold bracket_prices.
  change (String.eqb (lower "sell") "buy") with false.
  change (String.eqb (lower "sell") "sell") with true.
  change (String.eqb (lower "buy") "buy") with true.
  cbv iota. unfold dbind, dret.
  repeat match goal with
  | |- context [match ?m with Ok _ => _ | Err _ => _ end] =>
      lazymatch m with
      | ddiv _ _ => destruct m as [[? ?]|?]; cbn [fst snd]
      | dadd _ _ => destruct m as [[? ?]|?]; cbn [fst snd]
      | dsub _ _ => destruct m as [[? ?]|?]; cbn [fst snd]
      | dmul _ _ => destruct m as [[? ?]|?]; cbn [fst snd]
      | quantize _ _ => destruct m as [[? ?]|?]; cbn [fst snd]
      end
  end;
  try (split; intros H; discriminate H).
  split; intros H; inversion H; subst; f_equal; f_equal;
    repeat match goal with b : bool |- _ => destruct b end; reflexivity.
Qed.

Lemma bracket_prices_mirror_witness :
  bracket_prices "buy" (of_int 50000) (of_int 2) (of_int 5) (dec 5 (-1)) =
    Ok ((dec 510000 (-1), dec 475000 (-1)), false).
Proof.
  apply (bracket_prices_mirror (of_int 50000) (of_int 5) (of_int 2) (dec 5 (-1))
           (dec 475000 (-1)) (dec 510000 (-1)) false).
  reflexivity.
Defined.

End Extras.
